(** * IMediaTextureSample

    A shallow embedding of
    [Engine/Source/Runtime/Media/Public/IMediaTextureSample.h]:
    the sample-format and orientation enumerations, the tiling
    description with its validity test, and the [IMediaTextureSample]
    interface with the bodies of its defaulted virtual methods.

    A C++ class deriving from the interface is described by a table of
    method slots over the type of its data members.  A pure virtual
    method is a slot every class fills; a virtual method with a body
    is an optional slot, and an empty one dispatches to the body
    written in the header. *)

From Stdlib Require Import ZArith QArith Bool List Lia.
From Stdlib Require Import Floats.SpecFloat.
From Stdlib Require Import Floats.FloatClass.

Local Open Scope Z_scope.
Local Open Scope list_scope.

(** ** Machine numbers *)

Module Numeric.

(** An [int32] value is an integer within the range of the type. *)
Definition int32_range (z : Z) : Prop := - 2 ^ 31 <= z < 2 ^ 31.

(** IEEE 754 binary32 ([float]) and binary64 ([double]) numbers are
    [spec_float] values; the format is chosen by the precision and
    the exponent bound handed to each operation. *)
Definition float := spec_float.
Definition double := spec_float.

Definition float_prec := 24.
Definition float_emax := 128.
Definition double_prec := 53.
Definition double_emax := 1024.

(** The value of a decimal literal with the [f] suffix: the decimal
    rounded to the nearest binary32 number, ties to even.  The decimal
    is the exact quotient of two integers, and the correctly rounded
    quotient is what the binary32 division computes. *)
Definition float_literal (q : Q) : float :=
  match Qnum q with
  | Z0 => S754_zero false
  | Zpos n =>
      SFdiv float_prec float_emax
        (S754_finite false n 0) (S754_finite false (Qden q) 0)
  | Zneg n =>
      SFdiv float_prec float_emax
        (S754_finite true n 0) (S754_finite false (Qden q) 0)
  end.

(** The cast [(double)i] of an [int32]: rounding to nearest, which is
    exact on the whole [int32] range. *)
Definition double_of_int32 (z : Z) : double :=
  binary_normalize double_prec double_emax z 0 false.

(** The [/] of two [double]s. *)
Definition double_div (x y : double) : double :=
  SFdiv double_prec double_emax x y.

(** The rational number a finite floating-point number stands for. *)
Definition pow2 (e : Z) : Q :=
  match e with
  | Z0 => 1%Q
  | Zpos p => inject_Z (Z.pow_pos 2 p)
  | Zneg p => Qmake 1 (Pos.pow 2 p)
  end.

Definition value (x : spec_float) : option Q :=
  match x with
  | S754_zero _ => Some 0%Q
  | S754_finite s m e =>
      Some (Qmult (inject_Z (if s then Zneg m else Zpos m)) (pow2 e))
  | S754_infinity _ | S754_nan => None
  end.

(** [nearest prec x q]: the finite number [x], of mantissa [m] and
    exponent [e], carries a full [prec]-bit mantissa and lies within
    half a unit in the last place of the rational [q]. *)
Definition nearest (prec : Z) (x : spec_float) (q : Q) : bool :=
  match x with
  | S754_zero _ => Qeq_bool q 0
  | S754_finite s m e =>
      let v := Qmult (inject_Z (if s then Zneg m else Zpos m)) (pow2 e) in
      let half_ulp := Qmult (Qmake 1 2) (pow2 e) in
      Z.eqb (Zpos (digits2_pos m)) prec
      && Qle_bool (Qminus v half_ulp) q
      && Qle_bool q (Qplus v half_ulp)
  | S754_infinity _ | S754_nan => false
  end.

End Numeric.

Import Numeric.

(** ** Engine value types the header uses *)

(** Modelled from the spec: [FIntPoint] is declared in
    [Math/IntPoint.h], which is not among the sources; it is a pair of
    [int32] coordinates read as [.X] and [.Y]. *)
Module FIntPoint.
Record t : Type := Make { X : Z; Y : Z }.

(** Modelled from the spec: the constant [FIntPoint::ZeroValue], the
    point the default tiling descriptor ("zero descriptor") is built
    from. *)
Definition ZeroValue : t := Make 0 0.

Definition in_range (p : t) : Prop := int32_range (X p) /\ int32_range (Y p).
End FIntPoint.

Abbreviation FIntPoint := FIntPoint.t.

(** Modelled from the spec: [FLinearColor] is declared in
    [Math/Color.h]; four [float] components in constructor order. *)
Module FLinearColor.
Record t : Type := Make { R : float; G : float; B : float; A : float }.
End FLinearColor.

Abbreviation FLinearColor := FLinearColor.t.

(** Modelled from the spec: [FPlane] is declared in [Math/Plane.h];
    four components in constructor order.  The element type is declared
    outside the header; the conversion of a [float] into it keeps the
    value, so a component is recorded by the [float] it was written
    as. *)
Module FPlane.
Record t : Type := Make { X : float; Y : float; Z : float; W : float }.
End FPlane.

Abbreviation FPlane := FPlane.t.

(** Modelled from the spec: [FMatrix] is declared in [Math/Matrix.h];
    a 4x4 matrix built from four planes, one per row. *)
Module FMatrix.
Record t : Type := Make {
  Row0 : FPlane;
  Row1 : FPlane;
  Row2 : FPlane;
  Row3 : FPlane
}.

Definition rows (m : t) : list (list float) :=
  List.map
    (fun p => FPlane.X p :: FPlane.Y p :: FPlane.Z p :: FPlane.W p :: nil)
    (Row0 m :: Row1 m :: Row2 m :: Row3 m :: nil).
End FMatrix.

Abbreviation FMatrix := FMatrix.t.

(** Pointers: the classes [FRHITexture] and
    [IMediaTextureSampleConverter] are only forward declared, so a
    pointer is null or an opaque address. *)
Inductive pointee : Set := void | FRHITexture | IMediaTextureSampleConverter.

Inductive pointer (target : pointee) : Set :=
  | nullptr
  | address (a : positive).

Arguments nullptr {target}.
Arguments address {target} a.

(** ** Enumerations *)

Inductive EMediaTextureSampleFormat : Set :=
  | Undefined
  | CharAYUV
  | CharBGRA
  | CharBGR10A2
  | CharBMP
  | CharNV12
  | CharNV21
  | CharUYVY
  | CharYUY2
  | CharYVYU
  | FloatRGB
  | FloatRGBA
  | YUVv210
  | Y416
  | DXT1
  | DXT5
  | YCoCg_DXT5
  | YCoCg_DXT5_Alpha_BC4.

Module EMediaOrientation.
Inductive t : Set := Original | CW90 | CW180 | CW270.

(** The enumerators' values: [Original = 0] and the following ones
    count up. *)
Definition to_Z (o : t) : Z :=
  match o with
  | Original => 0
  | CW90 => 1
  | CW180 => 2
  | CW270 => 3
  end.
End EMediaOrientation.

Abbreviation EMediaOrientation := EMediaOrientation.t.

(** ** FMediaTextureTilingDescription *)

Module FMediaTextureTilingDescription.

Record t : Type := Make {
  TileNum : FIntPoint;
  TileSize : FIntPoint;
  TileBorderSize : Z
}.

(** The default member initialisers. *)
Definition default : t :=
  {| TileNum := FIntPoint.ZeroValue;
     TileSize := FIntPoint.ZeroValue;
     TileBorderSize := 0 |}.

Definition IsValid (d : t) : bool :=
  (FIntPoint.X (TileNum d) >? 0)
  && (FIntPoint.Y (TileNum d) >? 0)
  && (FIntPoint.X (TileSize d) >? 0)
  && (FIntPoint.Y (TileSize d) >? 0).

End FMediaTextureTilingDescription.

Abbreviation FMediaTextureTilingDescription := FMediaTextureTilingDescription.t.

(** ** The interface *)

Section Interface.

(** [FTimespan] ([Misc/Timespan.h]), [FMediaTimeStamp]
    ([IMediaTimeSource.h]) and [FTimecode] ([Misc/Timecode.h]) are
    declared outside the header, which only passes their values
    through: they are parameters. *)
Variables FTimespan FMediaTimeStamp FTimecode : Type.

(** The data members of the class that implements the interface. *)
Variable Fields : Type.

(** The method table of a class.  The [pure_] slots are the methods
    declared [= 0].  The [override_] slots are the virtual methods the
    header gives a body: [None] is a class that inherits that body.
    A method not declared [const] may change the data members and so
    returns them next to its result.  [GetTexture] and
    [GetMediaTextureSampleConverter] are declared under
    [#if WITH_ENGINE]; the table is that of an engine build. *)
Record IMediaTextureSample : Type := {
  pure_GetBuffer : Fields -> pointer void * Fields;
  pure_GetDim : Fields -> FIntPoint;
  pure_GetDuration : Fields -> FTimespan;
  pure_GetFormat : Fields -> EMediaTextureSampleFormat;
  pure_GetOutputDim : Fields -> FIntPoint;
  pure_GetStride : Fields -> Z;
  pure_GetTexture : Fields -> pointer FRHITexture;
  pure_GetTime : Fields -> FMediaTimeStamp;
  pure_IsCacheable : Fields -> bool;
  pure_IsOutputSrgb : Fields -> bool;
  override_GetNumMips : option (Fields -> Z);
  override_GetTilingDescription :
    option (Fields -> FMediaTextureTilingDescription);
  override_GetMediaTextureSampleConverter :
    option (Fields -> pointer IMediaTextureSampleConverter * Fields);
  override_GetTimecode : option (Fields -> option FTimecode);
  override_GetOrientation : option (Fields -> EMediaOrientation);
  override_GetAspectRatio : option (Fields -> double);
  override_GetScaleRotation : option (Fields -> FLinearColor);
  override_GetOffset : option (Fields -> FLinearColor);
  override_GetYUVToRGBMatrix : option (Fields -> FMatrix);
  override_Reset : option (Fields -> Fields)
}.

Variable class : IMediaTextureSample.

(** Virtual dispatch: the class's own method when it has one, the
    header's body otherwise. *)
Definition dispatch {R : Type} (slot : option (Fields -> R))
  (body : Fields -> R) (this : Fields) : R :=
  match slot with
  | Some method => method this
  | None => body this
  end.

Definition GetBuffer (this : Fields) : pointer void * Fields :=
  pure_GetBuffer class this.

Definition GetDim (this : Fields) : FIntPoint :=
  pure_GetDim class this.

Definition GetNumMips : Fields -> Z :=
  dispatch (override_GetNumMips class) (fun _ => 1).

Definition GetTilingDescription : Fields -> FMediaTextureTilingDescription :=
  dispatch (override_GetTilingDescription class)
    (fun _ => FMediaTextureTilingDescription.default).

Definition GetDuration (this : Fields) : FTimespan :=
  pure_GetDuration class this.

Definition GetFormat (this : Fields) : EMediaTextureSampleFormat :=
  pure_GetFormat class this.

Definition GetOutputDim (this : Fields) : FIntPoint :=
  pure_GetOutputDim class this.

Definition GetStride (this : Fields) : Z :=
  pure_GetStride class this.

Definition GetTexture (this : Fields) : pointer FRHITexture :=
  pure_GetTexture class this.

Definition GetMediaTextureSampleConverter
  : Fields -> pointer IMediaTextureSampleConverter * Fields :=
  dispatch (override_GetMediaTextureSampleConverter class)
    (fun this => (nullptr, this)).

Definition GetTime (this : Fields) : FMediaTimeStamp :=
  pure_GetTime class this.

(** [TOptional<FTimecode>] is [option FTimecode]; the default
    constructed optional is the unset one. *)
Definition GetTimecode : Fields -> option FTimecode :=
  dispatch (override_GetTimecode class) (fun _ => None).

Definition IsCacheable (this : Fields) : bool :=
  pure_IsCacheable class this.

Definition IsOutputSrgb (this : Fields) : bool :=
  pure_IsOutputSrgb class this.

Definition GetOrientation : Fields -> EMediaOrientation :=
  dispatch (override_GetOrientation class)
    (fun _ => EMediaOrientation.Original).

(** The body calls [GetOutputDim] through the method table, then
    divides the two coordinates as [double]s; there is no test on the
    divisor. *)
Definition GetAspectRatio : Fields -> double :=
  dispatch (override_GetAspectRatio class)
    (fun this =>
       let OutputDim := GetOutputDim this in
       double_div (double_of_int32 (FIntPoint.X OutputDim))
                  (double_of_int32 (FIntPoint.Y OutputDim))).

Definition GetScaleRotation : Fields -> FLinearColor :=
  dispatch (override_GetScaleRotation class)
    (fun _ =>
       FLinearColor.Make (float_literal 1.0) (float_literal 0.0)
                         (float_literal 0.0) (float_literal 1.0)).

Definition GetOffset : Fields -> FLinearColor :=
  dispatch (override_GetOffset class)
    (fun _ =>
       FLinearColor.Make (float_literal 0.0) (float_literal 0.0)
                         (float_literal 0.0) (float_literal 0.0)).

(** The function-local static of [GetYUVToRGBMatrix].  A negative
    entry is the unary minus of a positive literal. *)
Definition DefaultMatrix : FMatrix :=
  FMatrix.Make
    (FPlane.Make (float_literal 1.16438356164) (float_literal 0.000000000000)
                 (float_literal 1.792652263418) (float_literal 0.000000))
    (FPlane.Make (float_literal 1.16438356164)
                 (SFopp (float_literal 0.213237021569))
                 (SFopp (float_literal 0.533004040142)) (float_literal 0.000000))
    (FPlane.Make (float_literal 1.16438356164) (float_literal 2.112419281991)
                 (float_literal 0.000000000000) (float_literal 0.000000))
    (FPlane.Make (float_literal 0.000000) (float_literal 0.000000)
                 (float_literal 0.000000) (float_literal 0.000000)).

Definition GetYUVToRGBMatrix : Fields -> FMatrix :=
  dispatch (override_GetYUVToRGBMatrix class) (fun _ => DefaultMatrix).

(** The body of [Reset] is empty. *)
Definition Reset : Fields -> Fields :=
  dispatch (override_Reset class) (fun this => this).

End Interface.

Arguments pure_GetBuffer {FTimespan FMediaTimeStamp FTimecode Fields} _ _.
Arguments pure_GetDim {FTimespan FMediaTimeStamp FTimecode Fields} _ _.
Arguments pure_GetOutputDim {FTimespan FMediaTimeStamp FTimecode Fields} _ _.
Arguments pure_GetTexture {FTimespan FMediaTimeStamp FTimecode Fields} _ _.
Arguments override_GetNumMips {FTimespan FMediaTimeStamp FTimecode Fields} _.
Arguments override_GetTilingDescription
  {FTimespan FMediaTimeStamp FTimecode Fields} _.
Arguments override_GetMediaTextureSampleConverter
  {FTimespan FMediaTimeStamp FTimecode Fields} _.
Arguments override_GetTimecode {FTimespan FMediaTimeStamp FTimecode Fields} _.
Arguments override_GetOrientation {FTimespan FMediaTimeStamp FTimecode Fields} _.
Arguments override_GetAspectRatio {FTimespan FMediaTimeStamp FTimecode Fields} _.
Arguments override_GetScaleRotation
  {FTimespan FMediaTimeStamp FTimecode Fields} _.
Arguments override_GetOffset {FTimespan FMediaTimeStamp FTimecode Fields} _.
Arguments override_GetYUVToRGBMatrix
  {FTimespan FMediaTimeStamp FTimecode Fields} _.
Arguments override_Reset {FTimespan FMediaTimeStamp FTimecode Fields} _.
Arguments dispatch {Fields R} slot body this.
Arguments GetBuffer {FTimespan FMediaTimeStamp FTimecode Fields} class this.
Arguments GetDim {FTimespan FMediaTimeStamp FTimecode Fields} class this.
Arguments GetNumMips {FTimespan FMediaTimeStamp FTimecode Fields} class _.
Arguments GetTilingDescription
  {FTimespan FMediaTimeStamp FTimecode Fields} class _.
Arguments GetDuration {FTimespan FMediaTimeStamp FTimecode Fields} class this.
Arguments GetFormat {FTimespan FMediaTimeStamp FTimecode Fields} class this.
Arguments GetOutputDim {FTimespan FMediaTimeStamp FTimecode Fields} class this.
Arguments GetStride {FTimespan FMediaTimeStamp FTimecode Fields} class this.
Arguments GetTexture {FTimespan FMediaTimeStamp FTimecode Fields} class this.
Arguments GetMediaTextureSampleConverter
  {FTimespan FMediaTimeStamp FTimecode Fields} class _.
Arguments GetTime {FTimespan FMediaTimeStamp FTimecode Fields} class this.
Arguments GetTimecode {FTimespan FMediaTimeStamp FTimecode Fields} class _.
Arguments IsCacheable {FTimespan FMediaTimeStamp FTimecode Fields} class this.
Arguments IsOutputSrgb {FTimespan FMediaTimeStamp FTimecode Fields} class this.
Arguments GetOrientation {FTimespan FMediaTimeStamp FTimecode Fields} class _.
Arguments GetAspectRatio {FTimespan FMediaTimeStamp FTimecode Fields} class _.
Arguments GetScaleRotation {FTimespan FMediaTimeStamp FTimecode Fields} class _.
Arguments GetOffset {FTimespan FMediaTimeStamp FTimecode Fields} class _.
Arguments GetYUVToRGBMatrix {FTimespan FMediaTimeStamp FTimecode Fields} class _.
Arguments Reset {FTimespan FMediaTimeStamp FTimecode Fields} class _.

(** [TOptional::IsSet]. *)
Definition IsSet {A : Type} (o : option A) : bool :=
  match o with
  | Some _ => true
  | None => false
  end.

(** ** A class implementing the interface

    A sample that keeps its texels in a frame buffer in host memory and
    inherits every defaulted method.  Time values are counted in ticks
    and the time code is left out.  It serves to run the interface on
    concrete frames. *)

Module FFrameBufferSample.

Record Fields : Type := {
  Buffer : positive;
  Dim : FIntPoint;
  OutputDim : FIntPoint;
  Stride : Z;
  SampleFormat : EMediaTextureSampleFormat;
  Duration : Z;
  Time : Z;
  bCacheable : bool;
  bOutputSrgb : bool
}.

Definition class : IMediaTextureSample Z Z unit Fields :=
  {| pure_GetBuffer := fun this => (address (Buffer this), this);
     pure_GetDim := Dim;
     pure_GetDuration := Duration;
     pure_GetFormat := SampleFormat;
     pure_GetOutputDim := OutputDim;
     pure_GetStride := Stride;
     pure_GetTexture := fun _ => nullptr;
     pure_GetTime := Time;
     pure_IsCacheable := bCacheable;
     pure_IsOutputSrgb := bOutputSrgb;
     override_GetNumMips := None;
     override_GetTilingDescription := None;
     override_GetMediaTextureSampleConverter := None;
     override_GetTimecode := None;
     override_GetOrientation := None;
     override_GetAspectRatio := None;
     override_GetScaleRotation := None;
     override_GetOffset := None;
     override_GetYUVToRGBMatrix := None;
     override_Reset := None |}.

(** A 1920x1080 BGRA frame in a buffer padded to 1088 rows. *)
Definition hd_frame : Fields :=
  {| Buffer := 4096;
     Dim := FIntPoint.Make 1920 1088;
     OutputDim := FIntPoint.Make 1920 1080;
     Stride := 7680;
     SampleFormat := CharBGRA;
     Duration := 333667;
     Time := 0;
     bCacheable := true;
     bOutputSrgb := true |}.

(** A frame whose output height is zero. *)
Definition flat_frame : Fields :=
  {| Buffer := 4096;
     Dim := FIntPoint.Make 1920 0;
     OutputDim := FIntPoint.Make 1920 0;
     Stride := 7680;
     SampleFormat := CharBGRA;
     Duration := 0;
     Time := 0;
     bCacheable := false;
     bOutputSrgb := true |}.

(** A frame with no output at all. *)
Definition empty_frame : Fields :=
  {| Buffer := 4096;
     Dim := FIntPoint.Make 0 0;
     OutputDim := FIntPoint.Make 0 0;
     Stride := 0;
     SampleFormat := Undefined;
     Duration := 0;
     Time := 0;
     bCacheable := false;
     bOutputSrgb := false |}.

End FFrameBufferSample.

(** ** Reading an aspect ratio

    What a caller does with the [double] it gets back: compare it,
    order it, ask for its class. *)

(** The [double] [1.0]. *)
Definition double_one : double := double_of_int32 1.

(** The comparison of two [double]s; [None] when one is not a number. *)
Definition double_compare (x y : double) : option comparison :=
  SFcompare x y.

(** [x <= y] on [double]s. *)
Definition double_leb (x y : double) : bool := SFleb x y.

(** The class of a [double]: not-a-number, an infinity, a zero, a
    normal or a subnormal number, with its sign. *)
Definition double_classify (x : double) : float_class :=
  SFclassify double_prec x.

(** Output dimensions of a frame that shows something: both positive
    [int32]s. *)
Definition positive_dim (p : FIntPoint) : Prop :=
  0 < FIntPoint.X p < 2 ^ 31 /\ 0 < FIntPoint.Y p < 2 ^ 31.

(** A frame of the class above with the given output size and an
    unpadded buffer. *)
Definition frame_of_size (width height : Z) : FFrameBufferSample.Fields :=
  {| FFrameBufferSample.Buffer := 4096;
     FFrameBufferSample.Dim := FIntPoint.Make width height;
     FFrameBufferSample.OutputDim := FIntPoint.Make width height;
     FFrameBufferSample.Stride := 4 * width;
     FFrameBufferSample.SampleFormat := CharBGRA;
     FFrameBufferSample.Duration := 0;
     FFrameBufferSample.Time := 0;
     FFrameBufferSample.bCacheable := true;
     FFrameBufferSample.bOutputSrgb := true |}.

(** ** The YUV to RGB constant, as the specification words it

    The rows of decimals the specification gives for the default
    matrix, and two ways an entry of the matrix can relate to its
    decimal: being that very number, or being the [float] nearest to
    it. *)

Definition decimal_YUVToRGB_rows : list (list Q) :=
  ((1.16438356164 :: 0.0 :: 1.792652263418 :: 0.0 :: nil)
   :: (1.16438356164 :: -0.213237021569 :: -0.533004040142 :: 0.0 :: nil)
   :: (1.16438356164 :: 2.112419281991 :: 0.0 :: 0.0 :: nil)
   :: (0.0 :: 0.0 :: 0.0 :: 0.0 :: nil)
   :: nil)%Q.

(** [x] is a finite number whose value is exactly [q]. *)
Definition exactly (x : spec_float) (q : Q) : bool :=
  match value x with
  | Some v => Qeq_bool v q
  | None => false
  end.

(** Entry by entry comparison of a matrix with rows of rationals. *)
Fixpoint row_related (related : spec_float -> Q -> bool)
  (row : list spec_float) (decimals : list Q) : list bool :=
  match row, decimals with
  | x :: row', q :: decimals' =>
      related x q :: row_related related row' decimals'
  | _, _ => nil
  end.

Fixpoint rows_related (related : spec_float -> Q -> bool)
  (rows : list (list spec_float)) (decimals : list (list Q))
  : list (list bool) :=
  match rows, decimals with
  | row :: rows', qs :: decimals' =>
      row_related related row qs :: rows_related related rows' decimals'
  | _, _ => nil
  end.

Definition all_related (related : spec_float -> Q -> bool)
  (rows : list (list spec_float)) (decimals : list (list Q)) : bool :=
  (length rows =? length decimals)%nat
  && forallb (fun row => (length row =? 4)%nat) rows
  && forallb (fun qs => (length qs =? 4)%nat) decimals
  && forallb (forallb (fun b : bool => b)) (rows_related related rows decimals).

(** ** Floating-point facts *)

Section NumericFacts.

(** *** Binary digits *)

Lemma digits2_pos_iter_xO (p k : positive) :
  digits2_pos (Pos.iter xO p k) = (digits2_pos p + k)%positive.
Proof.
  induction k as [| k IH] using Pos.peano_ind.
  - simpl. lia.
  - rewrite Pos.iter_succ. simpl. rewrite IH. lia.
Qed.

Lemma iter_xO_mul (p k : positive) :
  Pos.iter xO p k = (p * 2 ^ k)%positive.
Proof.
  induction k as [| k IH] using Pos.peano_ind.
  - simpl. lia.
  - rewrite Pos.iter_succ, IH, Pos.pow_succ_r. lia.
Qed.

(** A number of [d] binary digits lies between [2 ^ (d - 1)] and
    [2 ^ d]. *)
Lemma digits2_pos_lower (p : positive) :
  2 ^ (Zpos (digits2_pos p) - 1) <= Zpos p.
Proof.
  induction p as [p IH | p IH | ]; simpl digits2_pos;
    try (rewrite Pos2Z.inj_succ;
         replace (Z.succ (Zpos (digits2_pos p)) - 1)
           with (Z.succ (Zpos (digits2_pos p) - 1)) by lia;
         rewrite Z.pow_succ_r by lia; lia).
  simpl. lia.
Qed.

Lemma digits2_pos_upper (p : positive) :
  Zpos p < 2 ^ Zpos (digits2_pos p).
Proof.
  induction p as [p IH | p IH | ]; simpl digits2_pos;
    try (rewrite Pos2Z.inj_succ, Z.pow_succ_r by lia; lia).
  simpl. lia.
Qed.

Lemma digits2_pos_bound (p : positive) (n : Z) :
  0 <= n -> Zpos p < 2 ^ n -> Zpos (digits2_pos p) <= n.
Proof.
  intros Hn Hp.
  destruct (Z.le_gt_cases (Zpos (digits2_pos p)) n) as [Hle | Hgt];
    [exact Hle | exfalso].
  assert (2 ^ n <= 2 ^ (Zpos (digits2_pos p) - 1))
    by (apply Z.pow_le_mono_r; lia).
  pose proof (digits2_pos_lower p). lia.
Qed.

Lemma digits2_pos_eq (p : positive) (d : Z) :
  2 ^ (d - 1) <= Zpos p < 2 ^ d -> 0 < d -> Zpos (digits2_pos p) = d.
Proof.
  intros [Hlo Hhi] Hd.
  pose proof (digits2_pos_lower p) as L.
  pose proof (digits2_pos_upper p) as U.
  destruct (Z.lt_trichotomy (Zpos (digits2_pos p)) d) as [Hlt | [Heq | Hgt]];
    [exfalso | exact Heq | exfalso].
  - assert (2 ^ Zpos (digits2_pos p) <= 2 ^ (d - 1))
      by (apply Z.pow_le_mono_r; lia).
    lia.
  - assert (2 ^ d <= 2 ^ (Zpos (digits2_pos p) - 1))
      by (apply Z.pow_le_mono_r; lia).
    lia.
Qed.

Lemma digits_53_54 (m : positive) :
  2 ^ 52 <= Zpos m < 2 ^ 54 ->
  (Zpos (digits2_pos m) = 53 /\ Zpos m < 2 ^ 53)
  \/ (Zpos (digits2_pos m) = 54 /\ 2 ^ 53 <= Zpos m).
Proof.
  intros Hm.
  destruct (Z.lt_ge_cases (Zpos m) (2 ^ 53)) as [Hlt | Hge]; [left | right];
    (split; [apply digits2_pos_eq; lia | assumption]).
Qed.

(** *** The cast from [int32] *)

(** Rounding an integer that fits the mantissa only shifts it into
    place: no bit is lost. *)
Lemma binary_round_exact (s : bool) (p k : positive) :
  Zpos (digits2_pos p) + Zpos k = double_prec ->
  binary_round double_prec double_emax s p 0
  = S754_finite s (Pos.iter xO p k) (Zneg k).
Proof.
  unfold double_prec, double_emax. intros Hd.
  unfold binary_round.
  assert (Hf : fexp 53 1024 (Zpos (digits2_pos p) + 0) = Zneg k)
    by (unfold fexp, emin; lia).
  rewrite Hf. unfold shl_align. simpl (Zneg k - 0).
  unfold binary_round_aux, shr_fexp.
  cbn [Zdigits2 shr_record_of_loc].
  rewrite digits2_pos_iter_xO.
  assert (Hf' : fexp 53 1024 (Zpos (digits2_pos p + k) + Zneg k) = Zneg k)
    by (unfold fexp, emin; lia).
  rewrite Hf', Z.sub_diag.
  cbn [shr shr_m loc_of_shr_record round_nearest_even Zdigits2
       shr_record_of_loc].
  rewrite digits2_pos_iter_xO, Hf', Z.sub_diag. cbn [shr shr_m].
  replace (Zneg k <=? 1024 - 53) with true
    by (symmetry; apply Z.leb_le; lia).
  reflexivity.
Qed.

Lemma int32_digits (p : positive) :
  Zpos p <= 2 ^ 31 -> Zpos (digits2_pos p) <= 32.
Proof.
  intros Hp. apply digits2_pos_bound; lia.
Qed.

(** The cast of a non-zero [int32] is a finite number of the same sign
    whose mantissa is the magnitude shifted left by [k] places, with
    [k] between 21 and 52. *)
Lemma double_of_int32_nonzero (z : Z) :
  int32_range z -> z <> 0 ->
  exists k : positive,
    double_of_int32 z
    = S754_finite (z <? 0) (Pos.iter xO (Z.to_pos (Z.abs z)) k) (Zneg k)
    /\ Zpos (digits2_pos (Z.to_pos (Z.abs z))) + Zpos k = double_prec
    /\ 21 <= Zpos k <= 52.
Proof.
  unfold int32_range. intros Hr Hz.
  destruct z as [| p | p]; [congruence | |];
    unfold double_of_int32, binary_normalize;
    assert (Hd : Zpos (digits2_pos p) <= 32) by (apply int32_digits; lia);
    exists (Z.to_pos (double_prec - Zpos (digits2_pos p)));
    simpl (Z.to_pos (Z.abs _));
    (assert (Hk : Zpos (digits2_pos p)
                  + Zpos (Z.to_pos (double_prec - Zpos (digits2_pos p)))
                  = double_prec) by (unfold double_prec; lia));
    (split; [apply binary_round_exact; exact Hk |]);
    (split; [exact Hk | unfold double_prec in *; lia]).
Qed.

Lemma double_of_int32_zero : double_of_int32 0 = S754_zero false.
Proof. reflexivity. Qed.

(** The cast keeps the value. *)
Lemma double_of_int32_value (z : Z) :
  int32_range z ->
  exists q : Q, value (double_of_int32 z) = Some q /\ Qeq q (inject_Z z).
Proof.
  intros Hr. destruct (Z.eq_dec z 0) as [-> | Hz].
  - exists 0%Q. split; reflexivity.
  - destruct (double_of_int32_nonzero z Hr Hz) as (k & Hk & _).
    rewrite Hk. simpl value. eexists. split; [reflexivity |].
    rewrite iter_xO_mul. unfold pow2.
    destruct z as [| p | p]; [congruence | |]; simpl;
      unfold Qeq; simpl; lia.
Qed.

(** *** Rounding a quotient *)

(** The position of the exact quotient between two consecutive
    integers, read off the remainder [r] of a division by [d]. *)
Lemma new_location_compare (d r : Z) :
  0 < d -> 0 <= r < d ->
  new_location d r = if r =? 0 then loc_Exact else loc_Inexact (2 * r ?= d).
Proof.
  intros Hd Hr. unfold new_location, new_location_even, new_location_odd.
  destruct (Z.even d) eqn:Heven; destruct (Z.eqb_spec r 0) as [Hz | Hnz];
    try reflexivity.
  f_equal.
  assert (Hodd : Z.odd d = true)
    by (rewrite <- Z.negb_even, Heven; reflexivity).
  apply Z.odd_spec in Hodd. destruct Hodd as [h Hh].
  destruct (Z.compare_spec (2 * r + 1) d);
    destruct (Z.compare_spec (2 * r) d); try reflexivity; lia.
Qed.

Lemma shr_1_m (m : positive) (r s : bool) :
  shr_m (shr_1 (Build_shr_record (Zpos m) r s)) = Zpos m / 2.
Proof.
  rewrite <- Z.div2_div. destruct m; reflexivity.
Qed.

(** First pass of the rounding: the quotient [q], of 53 or 54 bits, is
    cut to 53 bits and rounded to nearest; the outcome is within half
    a unit of the exact quotient [q + r / d]. *)
Lemma round_first_pass (q : positive) (e d r : Z) :
  2 ^ 52 <= Zpos q < 2 ^ 54 -> -1000 <= e <= 900 -> 0 < d -> 0 <= r < d ->
  let mrs := fst (shr_fexp 53 1024 (Zpos q) e (new_location d r)) in
  let e1 := snd (shr_fexp 53 1024 (Zpos q) e (new_location d r)) in
  let m2 := round_nearest_even (shr_m mrs) (loc_of_shr_record mrs) in
  exists j : Z,
    e1 = e + j /\ 0 <= j <= 1
    /\ 2 ^ 52 <= m2 <= 2 ^ 53
    /\ 2 * Z.abs (m2 * 2 ^ j * d - (Zpos q * d + r)) <= 2 ^ j * d.
Proof.
  intros Hq He Hd Hr. rewrite (new_location_compare d r Hd Hr).
  unfold shr_fexp. cbn [Zdigits2].
  destruct (digits_53_54 q Hq) as [[Hdig Hb] | [Hdig Hb]]; rewrite Hdig.
  - replace (fexp 53 1024 (53 + e) - e) with 0 by (unfold fexp, emin; lia).
    cbn [shr fst snd]. exists 0. split; [lia |]. split; [lia |].
    change (2 ^ 0) with 1.
    destruct (Z.eqb_spec r 0) as [Hz | Hnz];
      [| destruct (Z.compare_spec (2 * r) d) as [Hc | Hc | Hc]];
      cbn [shr_record_of_loc shr_m loc_of_shr_record round_nearest_even];
      try destruct (Z.even (Zpos q)); lia.
  - replace (fexp 53 1024 (54 + e) - e) with 1 by (unfold fexp, emin; lia).
    cbn [shr fst snd iter_pos]. exists 1. split; [lia |]. split; [lia |].
    change (2 ^ 1) with 2.
    assert (Hh : 2 ^ 52 <= Zpos q / 2 < 2 ^ 53).
    { split; [apply Z.div_le_lower_bound | apply Z.div_lt_upper_bound]; lia. }
    destruct q as [q' | q' | ]; [| | lia].
    + assert (Hq' : Zpos q'~1 / 2 = Zpos q')
        by (symmetry; apply Z.div_unique with 1; lia).
      rewrite Hq' in Hh.
      destruct (Z.eqb_spec r 0) as [Hz | Hnz];
        [| destruct (Z.compare_spec (2 * r) d) as [Hc | Hc | Hc]];
        cbn [shr_record_of_loc shr_1 shr_m loc_of_shr_record
             round_nearest_even orb];
        try destruct (Z.even (Zpos q')); rewrite (Pos2Z.inj_xI q'); lia.
    + assert (Hq' : Zpos q'~0 / 2 = Zpos q')
        by (symmetry; apply Z.div_unique with 0; lia).
      rewrite Hq' in Hh.
      destruct (Z.eqb_spec r 0) as [Hz | Hnz];
        [| destruct (Z.compare_spec (2 * r) d) as [Hc | Hc | Hc]];
        cbn [shr_record_of_loc shr_1 shr_m loc_of_shr_record
             round_nearest_even orb];
        try destruct (Z.even (Zpos q')); rewrite (Pos2Z.inj_xO q'); lia.
Qed.

(** Second pass: when the rounding carried into a 54th bit, one more
    shift, which drops a zero. *)
Lemma shr_fexp_exact (m : positive) (e : Z) :
  2 ^ 52 <= Zpos m <= 2 ^ 53 -> -1000 <= e <= 900 ->
  exists (m' : positive) (j : Z),
    shr_m (fst (shr_fexp 53 1024 (Zpos m) e loc_Exact)) = Zpos m'
    /\ snd (shr_fexp 53 1024 (Zpos m) e loc_Exact) = e + j
    /\ 0 <= j <= 1
    /\ Zpos m' * 2 ^ j = Zpos m
    /\ 2 ^ 52 <= Zpos m' < 2 ^ 53.
Proof.
  intros Hm He. unfold shr_fexp. cbn [Zdigits2].
  assert (Hm' : 2 ^ 52 <= Zpos m < 2 ^ 54) by lia.
  destruct (digits_53_54 m Hm') as [[Hd Hb] | [Hd Hb]]; rewrite Hd.
  - replace (fexp 53 1024 (53 + e) - e) with 0 by (unfold fexp, emin; lia).
    cbn [shr fst snd shr_record_of_loc shr_m].
    exists m, 0. repeat split; lia.
  - replace (fexp 53 1024 (54 + e) - e) with 1 by (unfold fexp, emin; lia).
    cbn [shr fst snd shr_record_of_loc iter_pos]. rewrite shr_1_m.
    assert (Heq : Zpos m = 2 ^ 53) by lia. rewrite Heq.
    exists (2 ^ 52)%positive, 1. repeat split; try reflexivity; lia.
Qed.

Lemma binary_round_aux_nearest (s : bool) (q : positive) (e d r : Z) :
  2 ^ 52 <= Zpos q < 2 ^ 54 -> -1000 <= e <= 899 -> 0 < d -> 0 <= r < d ->
  exists (m : positive) (j : Z),
    binary_round_aux 53 1024 s (Zpos q) e (new_location d r)
    = S754_finite s m (e + j)
    /\ 0 <= j <= 2
    /\ 2 ^ 52 <= Zpos m < 2 ^ 53
    /\ 2 * Z.abs (Zpos m * 2 ^ j * d - (Zpos q * d + r)) <= 2 ^ j * d.
Proof.
  intros Hq He Hd Hr. unfold binary_round_aux.
  assert (He' : -1000 <= e <= 900) by lia.
  destruct (round_first_pass q e d r Hq He' Hd Hr)
    as (j1 & He1 & Hj1 & Hm2 & Hnear).
  destruct (shr_fexp 53 1024 (Zpos q) e (new_location d r)) as [mrs e1].
  cbn [fst snd] in He1, Hm2, Hnear.
  destruct (round_nearest_even (shr_m mrs) (loc_of_shr_record mrs))
    as [| m2 | m2]; try lia.
  assert (He1' : -1000 <= e1 <= 900) by lia.
  destruct (shr_fexp_exact m2 e1 Hm2 He1')
    as (m & j2 & Hm & He2 & Hj2 & Hval & Hbound).
  destruct (shr_fexp 53 1024 (Zpos m2) e1 loc_Exact) as [mrs2 e2].
  cbn [fst snd] in Hm, He2. rewrite Hm.
  replace (e2 <=? 1024 - 53) with true by (symmetry; apply Z.leb_le; lia).
  exists m, (j1 + j2).
  split; [f_equal; lia |]. split; [lia |]. split; [exact Hbound |].
  rewrite <- Hval in Hnear.
  assert (Hc1 : j1 = 0 \/ j1 = 1) by lia.
  assert (Hc2 : j2 = 0 \/ j2 = 1) by lia.
  destruct Hc1 as [-> | ->]; destruct Hc2 as [-> | ->];
    rewrite ?Z.pow_add_r by lia;
    change (2 ^ 0) with 1 in *; change (2 ^ 1) with 2 in *; lia.
Qed.

Lemma div_eucl_div_mod (a b : Z) : Z.div_eucl a b = (a / b, a mod b).
Proof. unfold Z.div, Z.modulo. destruct (Z.div_eucl a b). reflexivity. Qed.

(** The quotient of two finite [double]s with full mantissas: a finite
    number whose mantissa is within half a unit of the exact quotient
    of the mantissas. *)
Lemma SFdiv_normal_nearest (sx sy : bool) (mx my : positive) (ex ey : Z) :
  2 ^ 52 <= Zpos mx < 2 ^ 53 -> 2 ^ 52 <= Zpos my < 2 ^ 53 ->
  -100 <= ex <= 0 -> -100 <= ey <= 0 ->
  exists (m : positive) (j : Z),
    SFdiv 53 1024 (S754_finite sx mx ex) (S754_finite sy my ey)
    = S754_finite (xorb sx sy) m (ex - ey - 53 + j)
    /\ 0 <= j <= 2
    /\ 2 ^ 52 <= Zpos m < 2 ^ 53
    /\ 2 * Z.abs (Zpos m * 2 ^ j * Zpos my - Zpos mx * 2 ^ 53)
       <= 2 ^ j * Zpos my.
Proof.
  intros Hmx Hmy Hex Hey. unfold SFdiv, SFdiv_core_binary. cbn [Zdigits2].
  rewrite (digits2_pos_eq mx 53), (digits2_pos_eq my 53) by lia.
  replace (Z.min (fexp 53 1024 (53 + ex - (53 + ey))) (ex - ey))
    with (ex - ey - 53) by (unfold fexp, emin; lia).
  replace (ex - ey - (ex - ey - 53)) with 53 by lia.
  rewrite Z.shiftl_mul_pow2 by lia.
  rewrite div_eucl_div_mod.
  pose proof (Z.div_mod (Zpos mx * 2 ^ 53) (Zpos my) ltac:(lia)) as Hdm.
  pose proof (Z.mod_pos_bound (Zpos mx * 2 ^ 53) (Zpos my) ltac:(lia)) as Hr.
  assert (Hq : 2 ^ 52 <= Zpos mx * 2 ^ 53 / Zpos my < 2 ^ 54).
  { split; [apply Z.div_le_lower_bound | apply Z.div_lt_upper_bound]; nia. }
  destruct (Zpos mx * 2 ^ 53 / Zpos my) as [| q | q] eqn:Hquot; try lia.
  destruct (binary_round_aux_nearest (xorb sx sy) q (ex - ey - 53) (Zpos my)
              (Zpos mx * 2 ^ 53 mod Zpos my))
    as (m & j & Hres & Hj & Hm & Hnear); try lia.
  exists m, j. rewrite Hres. repeat split; lia.
Qed.

(** A finite number with a full mantissa [m] and exponent [- E] is
    nearest to the quotient [X / Y] once [m * |Y|] is within [|Y| / 2]
    of [|X| * 2 ^ E]. *)
Lemma nearest_quotient (X Y : Z) (m E : positive) :
  X <> 0 -> Y <> 0 ->
  2 ^ 52 <= Zpos m < 2 ^ 53 ->
  2 * Z.abs (Zpos m * Z.abs Y - Z.abs X * 2 ^ Zpos E) <= Z.abs Y ->
  nearest double_prec (S754_finite (xorb (X <? 0) (Y <? 0)) m (Zneg E))
    (Qdiv (inject_Z X) (inject_Z Y)) = true.
Proof.
  intros HX HY Hm Hnear. unfold nearest, double_prec.
  rewrite (digits2_pos_eq m 53) by lia. rewrite Z.eqb_refl. cbn [andb].
  apply andb_true_intro. rewrite !Qle_bool_iff.
  assert (Hp : Zpos (2 ^ E) = 2 ^ Zpos E) by (apply Pos2Z.inj_pow).
  destruct X as [| px | px]; [congruence | |];
    (destruct Y as [| py | py]; [congruence | |]);
    unfold Qle, Qdiv, Qinv, Qmult, Qminus, Qplus, Qopp, pow2, inject_Z;
    cbn -[Z.pow Z.mul Pos.mul Pos.pow Z.add Z.sub]; cbn [Z.abs] in Hnear;
    rewrite ?Pos2Z.inj_mul, ?Pos2Z.opp_pos, ?Hp;
    try rewrite <- !Pos2Z.opp_pos; nia.
Qed.

(** The [double] quotient of two [int32]s, the divisor not zero, is the
    finite [double] nearest to their exact quotient. *)
Lemma double_div_int32_nearest (X Y : Z) :
  int32_range X -> int32_range Y -> Y <> 0 ->
  nearest double_prec (double_div (double_of_int32 X) (double_of_int32 Y))
    (Qdiv (inject_Z X) (inject_Z Y)) = true.
Proof.
  intros HX HY HYnz.
  destruct (double_of_int32_nonzero Y HY HYnz) as (ky & HYd & HYk & HYr).
  destruct (Z.eq_dec X 0) as [-> | HXnz].
  - rewrite double_of_int32_zero, HYd. unfold double_div. cbn [SFdiv nearest].
    destruct Y as [| py | py]; [congruence | |]; reflexivity.
  - destruct (double_of_int32_nonzero X HX HXnz) as (kx & HXd & HXk & HXr).
    rewrite HXd, HYd. unfold double_div, double_prec, double_emax in *.
    set (px := Z.to_pos (Z.abs X)) in *. set (py := Z.to_pos (Z.abs Y)) in *.
    assert (Hpx : Zpos px = Z.abs X) by (unfold px; lia).
    assert (Hpy : Zpos py = Z.abs Y) by (unfold py; lia).
    assert (Hmx : 2 ^ 52 <= Zpos (Pos.iter xO px kx) < 2 ^ 53).
    { pose proof (digits2_pos_lower (Pos.iter xO px kx)) as L.
      pose proof (digits2_pos_upper (Pos.iter xO px kx)) as U.
      rewrite digits2_pos_iter_xO, Pos2Z.inj_add, HXk in L, U.
      exact (conj L U). }
    assert (Hmy : 2 ^ 52 <= Zpos (Pos.iter xO py ky) < 2 ^ 53).
    { pose proof (digits2_pos_lower (Pos.iter xO py ky)) as L.
      pose proof (digits2_pos_upper (Pos.iter xO py ky)) as U.
      rewrite digits2_pos_iter_xO, Pos2Z.inj_add, HYk in L, U.
      exact (conj L U). }
    destruct (SFdiv_normal_nearest (X <? 0) (Y <? 0) _ _ (Zneg kx) (Zneg ky)
                Hmx Hmy ltac:(lia) ltac:(lia))
      as (m & j & Hres & Hj & Hm & Hnear).
    rewrite Hres.
    set (E := Zpos kx + 53 - Zpos ky - j).
    assert (HE : 0 < E) by (unfold E; lia).
    replace (Zneg kx - Zneg ky - 53 + j) with (Zneg (Z.to_pos E))
      by (unfold E in *; lia).
    apply nearest_quotient; try assumption.
    rewrite Z2Pos.id by exact HE.
    rewrite !iter_xO_mul, !Pos2Z.inj_mul, !Pos2Z.inj_pow, Hpx, Hpy in Hnear.
    change (Zpos 2) with 2 in Hnear.
    assert (Hsplit : 2 ^ Zpos kx * 2 ^ 53 = 2 ^ E * (2 ^ j * 2 ^ Zpos ky)).
    { rewrite <- !Z.pow_add_r by lia. f_equal. unfold E. lia. }
    rewrite <- (Z.mul_assoc (Z.abs X) (2 ^ Zpos kx) (2 ^ 53)), Hsplit in Hnear.
    replace (Zpos m * 2 ^ j * (Z.abs Y * 2 ^ Zpos ky)
             - Z.abs X * (2 ^ E * (2 ^ j * 2 ^ Zpos ky)))
      with ((Zpos m * Z.abs Y - Z.abs X * 2 ^ E) * (2 ^ j * 2 ^ Zpos ky))
      in Hnear by ring.
    replace (2 ^ j * (Z.abs Y * 2 ^ Zpos ky))
      with (Z.abs Y * (2 ^ j * 2 ^ Zpos ky)) in Hnear by ring.
    set (T := 2 ^ j * 2 ^ Zpos ky) in *.
    assert (HT : 0 < T)
      by (unfold T; apply Z.mul_pos_pos; apply Z.pow_pos_nonneg; lia).
    rewrite Z.abs_mul, (Z.abs_eq T), Z.mul_assoc in Hnear by lia.
    apply Z.mul_le_mono_pos_r in Hnear; assumption.
Qed.

End NumericFacts.

(** ** The literals of the header *)

(** Every decimal written in the header, rounded to [float], is the
    nearest [float] to it, and two of them are exact. *)
Lemma float_literal_one :
  float_literal 1.0 = S754_finite false 8388608 (-23).
Proof. reflexivity. Qed.

Lemma float_literal_zero : float_literal 0.0 = S754_zero false.
Proof. reflexivity. Qed.

Lemma float_literals_nearest :
  List.forallb (fun q => nearest float_prec (float_literal q) q)
    (1.0 :: 0.0 :: 1.16438356164 :: 1.792652263418 :: 0.213237021569
       :: 0.533004040142 :: 2.112419281991 :: nil)%Q
  = true.
Proof. vm_compute. reflexivity. Qed.

(** Rounding moves a literal: the first entry of the default matrix is
    below the decimal it is written as by more than 3e-8. *)
Lemma float_literal_rounds :
  value (float_literal 1.16438356164) = Some (Qmake 9767557 8388608)
  /\ Qlt (Qmake 3 100000000) (Qminus 1.16438356164 (Qmake 9767557 8388608)).
Proof. split; vm_compute; reflexivity. Qed.

(** The minus sign in front of a literal and the literal of the negated
    decimal are the same [float]. *)
Lemma float_literal_opp :
  SFopp (float_literal 0.213237021569) = float_literal (-0.213237021569)
  /\ SFopp (float_literal 0.533004040142) = float_literal (-0.533004040142).
Proof. split; vm_compute; reflexivity. Qed.

(** The numbers stored in the default matrix: mantissa and binary
    exponent of each entry. *)
Lemma DefaultMatrix_entries :
  FMatrix.rows DefaultMatrix
  = (S754_finite false 9767557 (-23) :: S754_zero false
       :: S754_finite false 15037857 (-23) :: S754_zero false :: nil)
    :: (S754_finite false 9767557 (-23) :: S754_finite true 14310094 (-26)
          :: S754_finite true 8942324 (-24) :: S754_zero false :: nil)
    :: (S754_finite false 9767557 (-23) :: S754_finite false 8860129 (-22)
          :: S754_zero false :: S754_zero false :: nil)
    :: (S754_zero false :: S754_zero false
          :: S754_zero false :: S754_zero false :: nil)
    :: nil.
Proof. vm_compute. reflexivity. Qed.

(** ** The tiling description *)

(** C4: a tiling description is valid exactly when both tile counts and
    both tile sizes are positive, whatever its border size is. *)
Theorem IsValid_iff_positive (d : FMediaTextureTilingDescription) :
  (FMediaTextureTilingDescription.IsValid d = true <->
     FIntPoint.X (FMediaTextureTilingDescription.TileNum d) > 0
     /\ FIntPoint.Y (FMediaTextureTilingDescription.TileNum d) > 0
     /\ FIntPoint.X (FMediaTextureTilingDescription.TileSize d) > 0
     /\ FIntPoint.Y (FMediaTextureTilingDescription.TileSize d) > 0)
  /\ (forall border : Z,
        FMediaTextureTilingDescription.IsValid
          (FMediaTextureTilingDescription.Make
             (FMediaTextureTilingDescription.TileNum d)
             (FMediaTextureTilingDescription.TileSize d) border)
        = FMediaTextureTilingDescription.IsValid d).
Proof.
  split.
  - unfold FMediaTextureTilingDescription.IsValid.
    rewrite !andb_true_iff, <- !Zgt_is_gt_bool. tauto.
  - intros border. reflexivity.
Qed.

(** ** The defaulted methods *)

Section Defaults.

Context {FTimespan FMediaTimeStamp FTimecode Fields : Type}.
Variable class : IMediaTextureSample FTimespan FMediaTimeStamp FTimecode Fields.
Variable this : Fields.

(** C3, as amended: a sample that does not override
    [GetYUVToRGBMatrix] returns the matrix whose entries are the
    single-precision numbers the header's literals round to:
    9767557 * 2^-23 for 1.16438356164f, 15037857 * 2^-23 for
    1.792652263418f, - 14310094 * 2^-26 for -0.213237021569f,
    - 8942324 * 2^-24 for -0.533004040142f, 8860129 * 2^-22 for
    2.112419281991f, and positive zero elsewhere, the last row being all
    zero.  Each entry is the [float] nearest to the decimal of the
    specification, within half a unit in the last place. *)
Theorem GetYUVToRGBMatrix_single_precision :
  override_GetYUVToRGBMatrix class = None ->
  FMatrix.rows (GetYUVToRGBMatrix class this)
  = (S754_finite false 9767557 (-23) :: S754_zero false
       :: S754_finite false 15037857 (-23) :: S754_zero false :: nil)
    :: (S754_finite false 9767557 (-23) :: S754_finite true 14310094 (-26)
          :: S754_finite true 8942324 (-24) :: S754_zero false :: nil)
    :: (S754_finite false 9767557 (-23) :: S754_finite false 8860129 (-22)
          :: S754_zero false :: S754_zero false :: nil)
    :: (S754_zero false :: S754_zero false
          :: S754_zero false :: S754_zero false :: nil)
    :: nil
  /\ all_related (nearest float_prec)
       (FMatrix.rows (GetYUVToRGBMatrix class this)) decimal_YUVToRGB_rows
     = true.
Proof.
  intros Hinherit. unfold GetYUVToRGBMatrix, dispatch. rewrite Hinherit.
  rewrite DefaultMatrix_entries. split; [reflexivity |].
  vm_compute. reflexivity.
Qed.

(** C5: a sample that does not override [GetAspectRatio] returns the
    [double] quotient of the output width by the output height, both
    cast to [double]: for a height other than zero, the finite [double]
    nearest to the exact ratio.  The division is not guarded, so an
    output height of zero yields the quotient by zero: not-a-number for
    a zero width, otherwise the infinity of the width's sign. *)
Theorem GetAspectRatio_default :
  override_GetAspectRatio class = None ->
  FIntPoint.in_range (GetOutputDim class this) ->
  GetAspectRatio class this
  = double_div (double_of_int32 (FIntPoint.X (GetOutputDim class this)))
               (double_of_int32 (FIntPoint.Y (GetOutputDim class this)))
  /\ (FIntPoint.Y (GetOutputDim class this) <> 0 ->
      nearest double_prec (GetAspectRatio class this)
        (Qdiv (inject_Z (FIntPoint.X (GetOutputDim class this)))
              (inject_Z (FIntPoint.Y (GetOutputDim class this))))
      = true)
  /\ (FIntPoint.Y (GetOutputDim class this) = 0 ->
      GetAspectRatio class this
      = if FIntPoint.X (GetOutputDim class this) =? 0
        then S754_nan
        else S754_infinity (FIntPoint.X (GetOutputDim class this) <? 0)).
Proof.
  intros Hinherit [HX HY].
  assert (Hbody : GetAspectRatio class this
    = double_div (double_of_int32 (FIntPoint.X (GetOutputDim class this)))
                 (double_of_int32 (FIntPoint.Y (GetOutputDim class this)))).
  { unfold GetAspectRatio, dispatch. rewrite Hinherit. reflexivity. }
  split; [exact Hbody |]. split.
  - intros Hnz. rewrite Hbody.
    apply double_div_int32_nearest; assumption.
  - intros Hzero. rewrite Hbody, Hzero, double_of_int32_zero.
    destruct (Z.eqb_spec (FIntPoint.X (GetOutputDim class this)) 0)
      as [-> | Hnz].
    + reflexivity.
    + destruct (double_of_int32_nonzero _ HX Hnz) as (k & -> & _).
      unfold double_div. simpl. rewrite xorb_false_r. reflexivity.
Qed.

(** C6: a sample that overrides neither [GetNumMips] nor
    [GetTilingDescription] has one mip and the default constructed
    tiling description: all its fields are zero and it is not valid. *)
Theorem GetNumMips_GetTilingDescription_default :
  override_GetNumMips class = None ->
  override_GetTilingDescription class = None ->
  GetNumMips class this = 1
  /\ GetTilingDescription class this
     = FMediaTextureTilingDescription.Make
         (FIntPoint.Make 0 0) (FIntPoint.Make 0 0) 0
  /\ FMediaTextureTilingDescription.IsValid (GetTilingDescription class this)
     = false.
Proof.
  intros Hmips Htiling.
  unfold GetNumMips, GetTilingDescription, dispatch.
  rewrite Hmips, Htiling. repeat split.
Qed.


(** C8: a sample that does not override [GetTimecode] returns the unset
    optional; the result type is the optional itself, so a missing time
    code is that value and nothing else. *)
Theorem GetTimecode_default :
  override_GetTimecode class = None ->
  GetTimecode class this = None
  /\ IsSet (GetTimecode class this) = false.
Proof.
  intros Hinherit. unfold GetTimecode, dispatch. rewrite Hinherit.
  split; reflexivity.
Qed.

(** C9: a sample that does not override [Reset] is left as it was by
    [Reset]: every accessor returns after the call what it returned
    before. *)
Theorem Reset_default :
  override_Reset class = None ->
  fst (GetBuffer class (Reset class this)) = fst (GetBuffer class this)
  /\ GetDim class (Reset class this) = GetDim class this
  /\ GetOutputDim class (Reset class this) = GetOutputDim class this
  /\ GetStride class (Reset class this) = GetStride class this
  /\ GetFormat class (Reset class this) = GetFormat class this
  /\ GetDuration class (Reset class this) = GetDuration class this
  /\ GetTime class (Reset class this) = GetTime class this
  /\ GetNumMips class (Reset class this) = GetNumMips class this
  /\ GetTilingDescription class (Reset class this)
     = GetTilingDescription class this
  /\ GetOrientation class (Reset class this) = GetOrientation class this
  /\ GetScaleRotation class (Reset class this) = GetScaleRotation class this
  /\ GetOffset class (Reset class this) = GetOffset class this
  /\ GetYUVToRGBMatrix class (Reset class this)
     = GetYUVToRGBMatrix class this
  /\ GetTimecode class (Reset class this) = GetTimecode class this
  /\ IsCacheable class (Reset class this) = IsCacheable class this
  /\ IsOutputSrgb class (Reset class this) = IsOutputSrgb class this.
Proof.
  intros Hinherit.
  assert (Hsame : Reset class this = this)
    by (unfold Reset, dispatch; rewrite Hinherit; reflexivity).
  rewrite Hsame. repeat split.
Qed.

(** C10: a sample that does not override
    [GetMediaTextureSampleConverter] returns the null pointer, and the
    call leaves the sample as it was. *)
Theorem GetMediaTextureSampleConverter_default :
  override_GetMediaTextureSampleConverter class = None ->
  GetMediaTextureSampleConverter class this = (nullptr, this).
Proof.
  intros Hinherit. unfold GetMediaTextureSampleConverter, dispatch.
  rewrite Hinherit. reflexivity.
Qed.

End Defaults.

(** ** The interface at work on concrete frames *)

Section Frames.

Import FFrameBufferSample.

(** A 1920x1080 frame: the aspect ratio is the [double] nearest to
    16/9. *)
Example GetAspectRatio_hd_frame :
  GetAspectRatio class hd_frame = S754_finite false 8006399337547548 (-52)
  /\ nearest double_prec (GetAspectRatio class hd_frame) (Qmake 16 9) = true.
Proof. split; vm_compute; reflexivity. Qed.

(** No width and no height: the quotient of zero by zero. *)
Example GetAspectRatio_empty_frame :
  GetAspectRatio class empty_frame = S754_nan.
Proof. reflexivity. Qed.

Lemma GetYUVToRGBMatrix_single_precision_witness :
  override_GetYUVToRGBMatrix class = None
  /\ FMatrix.rows (GetYUVToRGBMatrix class hd_frame)
     = (S754_finite false 9767557 (-23) :: S754_zero false
          :: S754_finite false 15037857 (-23) :: S754_zero false :: nil)
       :: (S754_finite false 9767557 (-23) :: S754_finite true 14310094 (-26)
             :: S754_finite true 8942324 (-24) :: S754_zero false :: nil)
       :: (S754_finite false 9767557 (-23) :: S754_finite false 8860129 (-22)
             :: S754_zero false :: S754_zero false :: nil)
       :: (S754_zero false :: S754_zero false
             :: S754_zero false :: S754_zero false :: nil)
       :: nil
  /\ all_related (nearest float_prec)
       (FMatrix.rows (GetYUVToRGBMatrix class hd_frame)) decimal_YUVToRGB_rows
     = true.
Proof.
  split; [reflexivity |].
  exact (GetYUVToRGBMatrix_single_precision class hd_frame eq_refl).
Defined.

(** The matrix a sample inherits is not, value for value, the matrix
    of decimals: the zeros are exact, each of the seven other entries
    is off its decimal. *)
Lemma GetYUVToRGBMatrix_not_the_decimals :
  override_GetYUVToRGBMatrix class = None
  /\ all_related exactly
       (FMatrix.rows (GetYUVToRGBMatrix class hd_frame)) decimal_YUVToRGB_rows
     = false
  /\ rows_related exactly
       (FMatrix.rows (GetYUVToRGBMatrix class hd_frame)) decimal_YUVToRGB_rows
     = (false :: true :: false :: true :: nil)
       :: (false :: false :: false :: true :: nil)
       :: (false :: false :: true :: true :: nil)
       :: (true :: true :: true :: true :: nil)
       :: nil.
Proof.
  split; [reflexivity |]. split; vm_compute; reflexivity.
Qed.

Lemma GetAspectRatio_default_witness :
  override_GetAspectRatio class = None
  /\ FIntPoint.in_range (GetOutputDim class flat_frame)
  /\ GetAspectRatio class flat_frame
     = double_div (double_of_int32 1920) (double_of_int32 0)
  /\ GetAspectRatio class flat_frame = S754_infinity false.
Proof.
  assert (Hrange : FIntPoint.in_range (GetOutputDim class flat_frame))
    by (unfold FIntPoint.in_range, int32_range; simpl; lia).
  split; [reflexivity |]. split; [exact Hrange |].
  destruct (GetAspectRatio_default class flat_frame eq_refl Hrange)
    as (Hquotient & _ & Hzero).
  split; [exact Hquotient | exact (Hzero eq_refl)].
Defined.

Lemma GetNumMips_GetTilingDescription_default_witness :
  override_GetNumMips class = None
  /\ override_GetTilingDescription class = None
  /\ GetNumMips class hd_frame = 1
  /\ GetTilingDescription class hd_frame
     = FMediaTextureTilingDescription.Make
         (FIntPoint.Make 0 0) (FIntPoint.Make 0 0) 0
  /\ FMediaTextureTilingDescription.IsValid
       (GetTilingDescription class hd_frame) = false.
Proof.
  split; [reflexivity |]. split; [reflexivity |].
  apply (GetNumMips_GetTilingDescription_default class hd_frame); reflexivity.
Defined.


Lemma GetTimecode_default_witness :
  override_GetTimecode class = None
  /\ GetTimecode class hd_frame = None
  /\ IsSet (GetTimecode class hd_frame) = false.
Proof.
  split; [reflexivity |].
  apply (GetTimecode_default class hd_frame). reflexivity.
Defined.

Lemma Reset_default_witness :
  override_Reset class = None
  /\ fst (GetBuffer class (Reset class hd_frame)) = address 4096
  /\ GetDim class (Reset class hd_frame) = FIntPoint.Make 1920 1088
  /\ GetOutputDim class (Reset class hd_frame) = FIntPoint.Make 1920 1080
  /\ GetStride class (Reset class hd_frame) = 7680
  /\ GetFormat class (Reset class hd_frame) = CharBGRA
  /\ GetDuration class (Reset class hd_frame) = 333667
  /\ GetTime class (Reset class hd_frame) = 0
  /\ GetNumMips class (Reset class hd_frame) = 1
  /\ GetTilingDescription class (Reset class hd_frame)
     = FMediaTextureTilingDescription.default
  /\ GetOrientation class (Reset class hd_frame) = EMediaOrientation.Original
  /\ GetScaleRotation class (Reset class hd_frame)
     = GetScaleRotation class hd_frame
  /\ GetOffset class (Reset class hd_frame) = GetOffset class hd_frame
  /\ GetYUVToRGBMatrix class (Reset class hd_frame) = DefaultMatrix
  /\ GetTimecode class (Reset class hd_frame) = None
  /\ IsCacheable class (Reset class hd_frame) = true
  /\ IsOutputSrgb class (Reset class hd_frame) = true.
Proof.
  split; [reflexivity |].
  exact (Reset_default class hd_frame eq_refl).
Defined.

Lemma GetMediaTextureSampleConverter_default_witness :
  override_GetMediaTextureSampleConverter class = None
  /\ GetMediaTextureSampleConverter class hd_frame = (nullptr, hd_frame).
Proof.
  split; [reflexivity |].
  apply (GetMediaTextureSampleConverter_default class hd_frame). reflexivity.
Defined.

End Frames.

(** ** The rounded quotient is the closest double *)

Section ClosestQuotient.

(** The first shift truncates: the mantissa it keeps is not above the
    quotient. *)
Lemma shr_fexp_floor (q : positive) (e : Z) (l : location) :
  2 ^ 52 <= Zpos q < 2 ^ 54 -> -1000 <= e <= 900 ->
  let mrs := fst (shr_fexp 53 1024 (Zpos q) e l) in
  let e1 := snd (shr_fexp 53 1024 (Zpos q) e l) in
  2 ^ 52 <= shr_m mrs /\ shr_m mrs * 2 ^ (e1 - e) <= Zpos q.
Proof.
  intros Hq He. unfold shr_fexp. cbn [Zdigits2].
  destruct (digits_53_54 q Hq) as [[Hdig Hb] | [Hdig Hb]]; rewrite Hdig.
  - replace (fexp 53 1024 (53 + e) - e) with 0 by (unfold fexp, emin; lia).
    cbn [shr fst snd]. rewrite Z.sub_diag. change (2 ^ 0) with 1.
    destruct l as [| []]; cbn [shr_record_of_loc shr_m]; lia.
  - replace (fexp 53 1024 (54 + e) - e) with 1 by (unfold fexp, emin; lia).
    cbn [shr fst snd iter_pos]. replace (e + 1 - e) with 1 by lia.
    change (2 ^ 1) with 2.
    assert (Hh : 2 ^ 52 <= Zpos q / 2).
    { apply Z.div_le_lower_bound; lia. }
    pose proof (Z.mul_div_le (Zpos q) 2 ltac:(lia)) as Hle.
    destruct l as [| []]; cbn [shr_record_of_loc]; rewrite shr_1_m; lia.
Qed.

Lemma round_nearest_even_ge (m : Z) (l : location) :
  m <= round_nearest_even m l.
Proof.
  unfold round_nearest_even.
  destruct l as [| []]; try destruct (Z.even m); lia.
Qed.

Lemma binary_round_aux_closest (s : bool) (q : positive) (e d r : Z) :
  2 ^ 52 <= Zpos q < 2 ^ 54 -> -1000 <= e <= 899 -> 0 < d -> 0 <= r < d ->
  exists (m : positive) (j : Z),
    binary_round_aux 53 1024 s (Zpos q) e (new_location d r)
    = S754_finite s m (e + j)
    /\ 0 <= j <= 2
    /\ 2 ^ 52 <= Zpos m < 2 ^ 53
    /\ 2 * Z.abs (Zpos m * 2 ^ j * d - (Zpos q * d + r)) <= 2 ^ j * d
    /\ (Zpos m = 2 ^ 52 ->
        4 * (Zpos m * 2 ^ j * d - (Zpos q * d + r)) <= 2 ^ j * d).
Proof.
  intros Hq He Hd Hr. unfold binary_round_aux.
  assert (He' : -1000 <= e <= 900) by lia.
  destruct (round_first_pass q e d r Hq He' Hd Hr)
    as (j1 & He1 & Hj1 & Hm2 & Hnear).
  destruct (shr_fexp_floor q e (new_location d r) Hq He') as [Hlo Hfloor].
  destruct (shr_fexp 53 1024 (Zpos q) e (new_location d r)) as [mrs e1].
  cbn [fst snd] in He1, Hm2, Hnear, Hlo, Hfloor.
  pose proof (round_nearest_even_ge (shr_m mrs) (loc_of_shr_record mrs)) as Hge.
  destruct (round_nearest_even (shr_m mrs) (loc_of_shr_record mrs))
    as [| m2 | m2]; try lia.
  assert (He1' : -1000 <= e1 <= 900) by lia.
  destruct (shr_fexp_exact m2 e1 Hm2 He1')
    as (m & j2 & Hm & He2 & Hj2 & Hval & Hbound).
  destruct (shr_fexp 53 1024 (Zpos m2) e1 loc_Exact) as [mrs2 e2].
  cbn [fst snd] in Hm, He2. rewrite Hm.
  replace (e2 <=? 1024 - 53) with true by (symmetry; apply Z.leb_le; lia).
  exists m, (j1 + j2).
  split; [f_equal; lia |]. split; [lia |]. split; [exact Hbound |].
  rewrite <- Hval in Hnear, Hge.
  replace (e1 - e) with j1 in Hfloor by lia.
  assert (Hc1 : j1 = 0 \/ j1 = 1) by lia.
  assert (Hc2 : j2 = 0 \/ j2 = 1) by lia.
  destruct Hc1 as [-> | ->]; destruct Hc2 as [-> | ->];
    rewrite ?Z.pow_add_r by lia;
    change (2 ^ 0) with 1 in *; change (2 ^ 1) with 2 in *;
    (split; [lia | intros Hpow; nia]).
Qed.

Lemma SFdiv_normal_closest (sx sy : bool) (mx my : positive) (ex ey : Z) :
  2 ^ 52 <= Zpos mx < 2 ^ 53 -> 2 ^ 52 <= Zpos my < 2 ^ 53 ->
  -100 <= ex <= 0 -> -100 <= ey <= 0 ->
  exists (m : positive) (j : Z),
    SFdiv 53 1024 (S754_finite sx mx ex) (S754_finite sy my ey)
    = S754_finite (xorb sx sy) m (ex - ey - 53 + j)
    /\ 0 <= j <= 2
    /\ 2 ^ 52 <= Zpos m < 2 ^ 53
    /\ 2 * Z.abs (Zpos m * 2 ^ j * Zpos my - Zpos mx * 2 ^ 53)
       <= 2 ^ j * Zpos my
    /\ (Zpos m = 2 ^ 52 ->
        4 * (Zpos m * 2 ^ j * Zpos my - Zpos mx * 2 ^ 53) <= 2 ^ j * Zpos my).
Proof.
  intros Hmx Hmy Hex Hey. unfold SFdiv, SFdiv_core_binary. cbn [Zdigits2].
  rewrite (digits2_pos_eq mx 53), (digits2_pos_eq my 53) by lia.
  replace (Z.min (fexp 53 1024 (53 + ex - (53 + ey))) (ex - ey))
    with (ex - ey - 53) by (unfold fexp, emin; lia).
  replace (ex - ey - (ex - ey - 53)) with 53 by lia.
  rewrite Z.shiftl_mul_pow2 by lia.
  rewrite div_eucl_div_mod.
  pose proof (Z.div_mod (Zpos mx * 2 ^ 53) (Zpos my) ltac:(lia)) as Hdm.
  pose proof (Z.mod_pos_bound (Zpos mx * 2 ^ 53) (Zpos my) ltac:(lia)) as Hr.
  assert (Hq : 2 ^ 52 <= Zpos mx * 2 ^ 53 / Zpos my < 2 ^ 54).
  { split; [apply Z.div_le_lower_bound | apply Z.div_lt_upper_bound]; nia. }
  destruct (Zpos mx * 2 ^ 53 / Zpos my) as [| q | q] eqn:Hquot; try lia.
  destruct (binary_round_aux_closest (xorb sx sy) q (ex - ey - 53) (Zpos my)
              (Zpos mx * 2 ^ 53 mod Zpos my))
    as (m & j & Hres & Hj & Hm & Hnear & Hpow); try lia.
  exists m, j. rewrite Hres.
  split; [reflexivity |]. split; [lia |]. split; [lia |].
  split; [lia | intros H; specialize (Hpow H); lia].
Qed.

(** The quotient of two non-zero [int32]s as [double]s, in integers:
    mantissa [m] and exponent [- E] with [m * |Y|] within [|Y| / 2] of
    [|X| * 2 ^ E], and within [|Y| / 4] above it when [m] is the least
    mantissa. *)
Lemma double_div_int32_closest (X Y : Z) :
  int32_range X -> int32_range Y -> X <> 0 -> Y <> 0 ->
  exists m E : positive,
    double_div (double_of_int32 X) (double_of_int32 Y)
    = S754_finite (xorb (X <? 0) (Y <? 0)) m (Zneg E)
    /\ 2 ^ 52 <= Zpos m < 2 ^ 53
    /\ 2 * Z.abs (Zpos m * Z.abs Y - Z.abs X * 2 ^ Zpos E) <= Z.abs Y
    /\ (Zpos m = 2 ^ 52 ->
        4 * (Zpos m * Z.abs Y - Z.abs X * 2 ^ Zpos E) <= Z.abs Y).
Proof.
  intros HX HY HXnz HYnz.
  destruct (double_of_int32_nonzero Y HY HYnz) as (ky & HYd & HYk & HYr).
  destruct (double_of_int32_nonzero X HX HXnz) as (kx & HXd & HXk & HXr).
  rewrite HXd, HYd. unfold double_div, double_prec, double_emax in *.
  set (px := Z.to_pos (Z.abs X)) in *. set (py := Z.to_pos (Z.abs Y)) in *.
  assert (Hpx : Zpos px = Z.abs X) by (unfold px; lia).
  assert (Hpy : Zpos py = Z.abs Y) by (unfold py; lia).
  assert (Hmx : 2 ^ 52 <= Zpos (Pos.iter xO px kx) < 2 ^ 53).
  { pose proof (digits2_pos_lower (Pos.iter xO px kx)) as L.
    pose proof (digits2_pos_upper (Pos.iter xO px kx)) as U.
    rewrite digits2_pos_iter_xO, Pos2Z.inj_add, HXk in L, U.
    exact (conj L U). }
  assert (Hmy : 2 ^ 52 <= Zpos (Pos.iter xO py ky) < 2 ^ 53).
  { pose proof (digits2_pos_lower (Pos.iter xO py ky)) as L.
    pose proof (digits2_pos_upper (Pos.iter xO py ky)) as U.
    rewrite digits2_pos_iter_xO, Pos2Z.inj_add, HYk in L, U.
    exact (conj L U). }
  destruct (SFdiv_normal_closest (X <? 0) (Y <? 0) _ _ (Zneg kx) (Zneg ky)
              Hmx Hmy ltac:(lia) ltac:(lia))
    as (m & j & Hres & Hj & Hm & Hnear & Hpow).
  rewrite Hres.
  set (E := Zpos kx + 53 - Zpos ky - j).
  assert (HE : 0 < E) by (unfold E; lia).
  exists m, (Z.to_pos E).
  split; [f_equal; unfold E in *; lia |]. split; [exact Hm |].
  rewrite Z2Pos.id by exact HE.
  rewrite !iter_xO_mul, !Pos2Z.inj_mul, !Pos2Z.inj_pow, Hpx, Hpy in Hnear, Hpow.
  change (Zpos 2) with 2 in Hnear, Hpow.
  assert (Hsplit : 2 ^ Zpos kx * 2 ^ 53 = 2 ^ E * (2 ^ j * 2 ^ Zpos ky)).
  { rewrite <- !Z.pow_add_r by lia. f_equal. unfold E. lia. }
  rewrite <- (Z.mul_assoc (Z.abs X) (2 ^ Zpos kx) (2 ^ 53)), Hsplit in Hnear, Hpow.
  replace (Zpos m * 2 ^ j * (Z.abs Y * 2 ^ Zpos ky)
           - Z.abs X * (2 ^ E * (2 ^ j * 2 ^ Zpos ky)))
    with ((Zpos m * Z.abs Y - Z.abs X * 2 ^ E) * (2 ^ j * 2 ^ Zpos ky))
    in Hnear, Hpow by ring.
  replace (2 ^ j * (Z.abs Y * 2 ^ Zpos ky))
    with (Z.abs Y * (2 ^ j * 2 ^ Zpos ky)) in Hnear, Hpow by ring.
  set (T := 2 ^ j * 2 ^ Zpos ky) in *.
  assert (HT : 0 < T)
    by (unfold T; apply Z.mul_pos_pos; apply Z.pow_pos_nonneg; lia).
  split.
  - rewrite Z.abs_mul, (Z.abs_eq T), Z.mul_assoc in Hnear by lia.
    apply Z.mul_le_mono_pos_r in Hnear; assumption.
  - intros Hp. specialize (Hpow Hp). rewrite Z.mul_assoc in Hpow.
    apply Z.mul_le_mono_pos_r in Hpow; assumption.
Qed.

(** An odd number that divides [X * 2 ^ n] divides [X]. *)
Lemma odd_factor (K X : Z) (n : nat) :
  Z.odd K = true ->
  forall Y : Z, K * Y = X * 2 ^ Z.of_nat n -> exists c : Z, X = K * c.
Proof.
  intros HK. induction n as [| n IH]; intros Y HY.
  - exists Y. change (2 ^ Z.of_nat 0) with 1 in HY. lia.
  - rewrite Nat2Z.inj_succ, Z.pow_succ_r in HY by lia.
    assert (Heven : Z.even Y = true).
    { assert (Hodd : Z.odd (K * Y) = false).
      { rewrite HY, Z.odd_mul, Z.odd_mul. cbn. apply andb_false_r. }
      rewrite Z.odd_mul, HK in Hodd. cbn in Hodd.
      rewrite <- Z.negb_odd, Hodd. reflexivity. }
    apply Z.even_spec in Heven. destruct Heven as [Y' ->].
    apply (IH Y'). lia.
Qed.

(** The exact quotient of two [int32]s is never half-way between two
    consecutive [double]s. *)
Lemma quotient_no_tie (X Y : Z) (m E : positive) :
  0 < X < 2 ^ 31 -> 0 < Y ->
  2 ^ 52 <= Zpos m ->
  2 * Z.abs (Zpos m * Y - X * 2 ^ Zpos E) <> Y.
Proof.
  intros HX HY Hm Htie.
  assert (Hcase : (2 * Zpos m - 1) * Y = X * 2 ^ Z.of_nat (S (Pos.to_nat E))
               \/ (2 * Zpos m + 1) * Y = X * 2 ^ Z.of_nat (S (Pos.to_nat E))).
  { rewrite Nat2Z.inj_succ, positive_nat_Z, Z.pow_succ_r by lia. lia. }
  assert (Hfin : forall K : Z, 2 ^ 53 - 1 <= K ->
                    (exists c : Z, X = K * c) -> False).
  { intros K HK [c Hc].
    destruct (Z.le_gt_cases c 0) as [Hle | Hgt]; nia. }
  destruct Hcase as [Hc | Hc];
    apply odd_factor in Hc;
    try (rewrite ?Z.odd_sub, ?Z.odd_add, Z.odd_mul; reflexivity);
    apply Hfin in Hc; try assumption; lia.
Qed.

(** Two candidates for the rounded quotient are the same number. *)
Lemma closest_exponent (X Y : Z) (m1 E1 m2 E2 : positive) :
  0 < X -> 0 < Y ->
  2 ^ 52 <= Zpos m1 < 2 ^ 53 -> 2 ^ 52 <= Zpos m2 < 2 ^ 53 ->
  2 * Z.abs (Zpos m1 * Y - X * 2 ^ Zpos E1) < Y ->
  (Zpos m1 = 2 ^ 52 -> 4 * (Zpos m1 * Y - X * 2 ^ Zpos E1) <= Y) ->
  2 * Z.abs (Zpos m2 * Y - X * 2 ^ Zpos E2) < Y ->
  (E1 < E2)%positive -> False.
Proof.
  intros HX HY Hm1 Hm2 HA1 HB1 HA2 Hlt.
  assert (HT1 : 0 < 2 ^ Zpos E1) by (apply Z.pow_pos_nonneg; lia).
  assert (HG : 2 ^ Zpos E2 = 2 ^ Zpos E1 * 2 ^ (Zpos E2 - Zpos E1)).
  { rewrite <- Z.pow_add_r by lia. f_equal. lia. }
  assert (HG2 : 2 <= 2 ^ (Zpos E2 - Zpos E1)).
  { change 2 with (2 ^ 1) at 1. apply Z.pow_le_mono_r; lia. }
  set (T := 2 ^ Zpos E1) in *. set (G := 2 ^ (Zpos E2 - Zpos E1)) in *.
  rewrite HG in HA2.
  assert (HXT : 0 < X * T) by (apply Z.mul_pos_pos; assumption).
  assert (HXTG : 2 * (X * T) <= X * (T * G)) by nia.
  assert (H1 : Zpos m1 * Y >= 2 ^ 52 * Y) by nia.
  assert (H2 : Zpos m2 * Y <= (2 ^ 53 - 1) * Y) by nia.
  assert (Hm1eq : Zpos m1 = 2 ^ 52).
  { assert (Zpos m1 * Y < (2 ^ 52 + 1) * Y) by lia. nia. }
  specialize (HB1 Hm1eq). lia.
Qed.

Lemma closest_unique (X Y : Z) (m1 E1 m2 E2 : positive) :
  0 < X -> 0 < Y ->
  2 ^ 52 <= Zpos m1 < 2 ^ 53 -> 2 ^ 52 <= Zpos m2 < 2 ^ 53 ->
  2 * Z.abs (Zpos m1 * Y - X * 2 ^ Zpos E1) < Y ->
  (Zpos m1 = 2 ^ 52 -> 4 * (Zpos m1 * Y - X * 2 ^ Zpos E1) <= Y) ->
  2 * Z.abs (Zpos m2 * Y - X * 2 ^ Zpos E2) < Y ->
  (Zpos m2 = 2 ^ 52 -> 4 * (Zpos m2 * Y - X * 2 ^ Zpos E2) <= Y) ->
  m1 = m2 /\ E1 = E2.
Proof.
  intros HX HY Hm1 Hm2 HA1 HB1 HA2 HB2.
  destruct (Pos.compare_spec E1 E2) as [Heq | Hlt | Hgt].
  - subst E2. split; [| reflexivity].
    destruct (Z.lt_trichotomy (Zpos m1) (Zpos m2)) as [H | [H | H]];
      [exfalso | congruence | exfalso].
    + assert (Zpos m1 * Y + Y <= Zpos m2 * Y) by nia. lia.
    + assert (Zpos m2 * Y + Y <= Zpos m1 * Y) by nia. lia.
  - exfalso. exact (closest_exponent X Y m1 E1 m2 E2 HX HY Hm1 Hm2 HA1 HB1 HA2 Hlt).
  - exfalso. exact (closest_exponent X Y m2 E2 m1 E1 HX HY Hm2 Hm1 HA2 HB2 HA1 Hgt).
Qed.

(** The quotient of two positive [int32]s: the bounds are strict, as
    the exact quotient is never a tie. *)
Lemma double_div_positive (X Y : Z) :
  0 < X < 2 ^ 31 -> 0 < Y < 2 ^ 31 ->
  exists m E : positive,
    double_div (double_of_int32 X) (double_of_int32 Y)
    = S754_finite false m (Zneg E)
    /\ 2 ^ 52 <= Zpos m < 2 ^ 53
    /\ 2 * Z.abs (Zpos m * Y - X * 2 ^ Zpos E) < Y
    /\ (Zpos m = 2 ^ 52 -> 4 * (Zpos m * Y - X * 2 ^ Zpos E) <= Y).
Proof.
  intros HX HY.
  destruct (double_div_int32_closest X Y) as (m & E & Hres & Hm & HA & HB);
    try (unfold int32_range; lia).
  exists m, E.
  replace (X <? 0) with false in Hres by (symmetry; apply Z.ltb_ge; lia).
  replace (Y <? 0) with false in Hres by (symmetry; apply Z.ltb_ge; lia).
  rewrite (Z.abs_eq X), (Z.abs_eq Y) in HA, HB by lia.
  split; [exact Hres |]. split; [exact Hm |]. split; [| exact HB].
  assert (HYpos : 0 < Y) by lia. assert (Hmlo : 2 ^ 52 <= Zpos m) by lia.
  pose proof (quotient_no_tie X Y m E HX HYpos Hmlo). lia.
Qed.

Lemma closest_transfer (X1 Y1 X2 Y2 m T : Z) :
  0 < Y1 -> 0 < Y2 -> X1 * Y2 = X2 * Y1 ->
  (2 * Z.abs (m * Y2 - X2 * T) < Y2 -> 2 * Z.abs (m * Y1 - X1 * T) < Y1)
  /\ (4 * (m * Y2 - X2 * T) <= Y2 -> 4 * (m * Y1 - X1 * T) <= Y1).
Proof.
  intros HY1 HY2 Heq.
  assert (Hcross : (m * Y1 - X1 * T) * Y2 = (m * Y2 - X2 * T) * Y1).
  { replace ((m * Y1 - X1 * T) * Y2) with (m * Y1 * Y2 - (X1 * Y2) * T) by ring.
    rewrite Heq. ring. }
  split; intros H.
  - apply (Z.mul_lt_mono_pos_r Y2); [exact HY2 |].
    rewrite <- Z.mul_assoc, <- (Z.abs_eq Y2) at 1 by lia.
    rewrite <- Z.abs_mul, Hcross, Z.abs_mul, (Z.abs_eq Y1) by lia. nia.
  - apply (Z.mul_le_mono_pos_r _ _ Y2); [exact HY2 |].
    rewrite <- Z.mul_assoc, Hcross. nia.
Qed.

Lemma double_div_proportional (X1 Y1 X2 Y2 : Z) :
  0 < X1 < 2 ^ 31 -> 0 < Y1 < 2 ^ 31 -> 0 < X2 < 2 ^ 31 -> 0 < Y2 < 2 ^ 31 ->
  X1 * Y2 = X2 * Y1 ->
  double_div (double_of_int32 X1) (double_of_int32 Y1)
  = double_div (double_of_int32 X2) (double_of_int32 Y2).
Proof.
  intros HX1 HY1 HX2 HY2 Heq.
  destruct (double_div_positive X1 Y1 HX1 HY1) as (m1 & E1 & -> & Hm1 & HA1 & HB1).
  destruct (double_div_positive X2 Y2 HX2 HY2) as (m2 & E2 & -> & Hm2 & HA2 & HB2).
  destruct (closest_transfer X1 Y1 X2 Y2 (Zpos m2) (2 ^ Zpos E2)
              ltac:(lia) ltac:(lia) Heq) as [HtA HtB].
  destruct (closest_unique X1 Y1 m1 E1 m2 E2) as [-> ->];
    try assumption; try lia.
  reflexivity.
Qed.

(** Division by one keeps a positive [int32]. *)
Lemma double_div_whole (k Y : Z) :
  0 < k -> 0 < Y -> k * Y < 2 ^ 31 ->
  double_div (double_of_int32 (k * Y)) (double_of_int32 Y) = double_of_int32 k.
Proof.
  intros Hk HY Hprod.
  assert (HkY : 0 < k * Y) by (apply Z.mul_pos_pos; assumption).
  assert (Hk31 : k < 2 ^ 31) by nia.
  assert (HY31 : Y < 2 ^ 31) by nia.
  destruct (double_div_positive (k * Y) Y ltac:(lia) ltac:(lia))
    as (m & E & -> & Hm & HA & HB).
  destruct (double_of_int32_nonzero k) as (kk & Hd & Hdig & Hkk);
    [unfold int32_range; lia | lia |].
  rewrite Hd. replace (k <? 0) with false by (symmetry; apply Z.ltb_ge; lia).
  set (mk := Pos.iter xO (Z.to_pos (Z.abs k)) kk) in *.
  assert (Hmk : Zpos mk = k * 2 ^ Zpos kk).
  { unfold mk. rewrite iter_xO_mul, Pos2Z.inj_mul, Pos2Z.inj_pow. f_equal. lia. }
  assert (Hmkb : 2 ^ 52 <= Zpos mk < 2 ^ 53).
  { pose proof (digits2_pos_lower mk) as L. pose proof (digits2_pos_upper mk) as U.
    unfold mk in L, U. rewrite digits2_pos_iter_xO, Pos2Z.inj_add in L, U.
    unfold double_prec in Hdig. rewrite Hdig in L, U. exact (conj L U). }
  assert (Hexact : Zpos mk * Y - k * Y * 2 ^ Zpos kk = 0) by (rewrite Hmk; ring).
  destruct (closest_unique (k * Y) Y m E mk kk) as [-> ->];
    try assumption; try lia.
  reflexivity.
Qed.

Lemma compare_cont_Eq (p q : positive) :
  Pos.compare_cont Eq p q = Pos.compare p q.
Proof. reflexivity. Qed.

Lemma double_one_eq : double_one = S754_finite false 4503599627370496 (-52).
Proof. reflexivity. Qed.

(** The quotient compares to one as the dividend compares to the
    divisor. *)
Lemma double_div_compare_one (X Y : Z) :
  0 < X < 2 ^ 31 -> 0 < Y < 2 ^ 31 ->
  double_compare (double_div (double_of_int32 X) (double_of_int32 Y)) double_one
  = Some (X ?= Y).
Proof.
  intros HX HY.
  destruct (double_div_positive X Y HX HY) as (m & E & -> & Hm & HA & HB).
  rewrite double_one_eq. unfold double_compare. cbn [SFcompare].
  f_equal.
  change (Zneg E ?= -52) with (CompOpp (Pos.compare E 52)).
  assert (Hlow : 2 ^ 52 * Y <= Zpos m * Y)
    by (apply Z.mul_le_mono_nonneg_r; lia).
  assert (Hhigh : Zpos m * Y <= (2 ^ 53 - 1) * Y)
    by (apply Z.mul_le_mono_nonneg_r; lia).
  set (T := 2 ^ Zpos E) in *.
  assert (HT : 0 < T) by (apply Z.pow_pos_nonneg; lia).
  assert (Hsmall : (E < 52)%positive -> T <= 2 ^ 51)
    by (intros H; apply Z.pow_le_mono_r; lia).
  assert (Hlarge : (52 < E)%positive -> 2 ^ 53 <= T)
    by (intros H; apply Z.pow_le_mono_r; lia).
  assert (Hmid : E = 52%positive -> T = 2 ^ 52)
    by (intros H; unfold T; rewrite H; reflexivity).
  assert (HXT51 : T <= 2 ^ 51 -> X * T <= X * 2 ^ 51)
    by (intros H; apply Z.mul_le_mono_nonneg_l; lia).
  assert (HXT53 : 2 ^ 53 <= T -> X * 2 ^ 53 <= X * T)
    by (intros H; apply Z.mul_le_mono_nonneg_l; lia).
  destruct (Pos.compare_spec E 52) as [HE | HE | HE]; cbn [CompOpp].
  - (* the exponent of one: the mantissas decide *)
    rewrite (Hmid HE) in HA. clear Hsmall Hlarge Hmid HXT51 HXT53 HB HT T HE.
    destruct (Z.compare_spec X Y) as [Hc | Hc | Hc].
    + subst Y.
      assert (Hmeq : Zpos m = 2 ^ 52).
      { destruct (Z.eq_dec (Zpos m) (2 ^ 52)) as [He | Hne]; [exact He |].
        assert ((2 ^ 52 + 1) * X <= Zpos m * X)
          by (apply Z.mul_le_mono_nonneg_r; lia).
        lia. }
      assert (Hmp : m = 4503599627370496%positive) by lia.
      rewrite Hmp. reflexivity.
    + exfalso. lia.
    + rewrite compare_cont_Eq. apply Pos.compare_gt_iff.
      destruct (Z.eq_dec (Zpos m) (2 ^ 52)) as [He | Hne]; [| lia].
      rewrite He in HA. lia.
  - (* a smaller exponent: a number of two or more *)
    specialize (Hsmall HE). specialize (HXT51 Hsmall).
    clear Hlarge Hmid HXT53 HB HE Hhigh.
    destruct (Z.compare_spec X Y) as [Hc | Hc | Hc];
      [exfalso; subst Y; lia | exfalso; lia | reflexivity].
  - (* a larger exponent: a number below one *)
    specialize (Hlarge HE). specialize (HXT53 Hlarge).
    clear Hsmall Hmid HXT51 HB HE Hlow.
    destruct (Z.compare_spec X Y) as [Hc | Hc | Hc];
      [exfalso; subst Y; lia | reflexivity | exfalso; lia].
Qed.

(** A larger exact quotient never gives a smaller [double]. *)
Lemma double_div_monotone (X1 Y1 X2 Y2 : Z) :
  0 < X1 < 2 ^ 31 -> 0 < Y1 < 2 ^ 31 -> 0 < X2 < 2 ^ 31 -> 0 < Y2 < 2 ^ 31 ->
  X1 * Y2 <= X2 * Y1 ->
  double_leb (double_div (double_of_int32 X1) (double_of_int32 Y1))
             (double_div (double_of_int32 X2) (double_of_int32 Y2)) = true.
Proof.
  intros HX1 HY1 HX2 HY2 Hle.
  destruct (double_div_positive X1 Y1 HX1 HY1)
    as (m1 & E1 & -> & Hm1 & HA1 & HB1).
  destruct (double_div_positive X2 Y2 HX2 HY2)
    as (m2 & E2 & -> & Hm2 & HA2 & _).
  unfold double_leb, SFleb. cbn [SFcompare].
  change (Zneg E1 ?= Zneg E2) with (CompOpp (Pos.compare E1 E2)).
  assert (HT1 : 0 < 2 ^ Zpos E1) by (apply Z.pow_pos_nonneg; lia).
  assert (Hcancel : forall a b t : Z, 0 < t -> a * t < b * t -> a < b)
    by (intros a b t Ht H; apply Z.mul_lt_mono_pos_r in H; assumption).
  destruct (Pos.compare_spec E1 E2) as [Heq | Hlt | Hgt]; cbn [CompOpp].
  - (* same exponent: the mantissas are in order *)
    subst E2. set (T := 2 ^ Zpos E1) in *.
    destruct (Pos.compare_cont Eq m1 m2) eqn:Hc; try reflexivity.
    exfalso. rewrite compare_cont_Eq in Hc. apply Pos.compare_gt_iff in Hc.
    assert (F1 : (Zpos m2 + 1) * Y1 <= Zpos m1 * Y1)
      by (apply Z.mul_le_mono_nonneg_r; lia).
    assert (H1 : (2 * Zpos m2 + 1) * Y1 < 2 * (X1 * T)) by lia.
    assert (H2 : 2 * (X2 * T) < (2 * Zpos m2 + 1) * Y2) by lia.
    assert (H1' : (2 * Zpos m2 + 1) * Y1 * Y2 < 2 * (X1 * T) * Y2)
      by (apply Z.mul_lt_mono_pos_r; lia).
    assert (H2' : 2 * (X2 * T) * Y1 < (2 * Zpos m2 + 1) * Y2 * Y1)
      by (apply Z.mul_lt_mono_pos_r; lia).
    assert (H3 : (X2 * Y1) * T < (X1 * Y2) * T) by lia.
    apply Hcancel in H3; lia.
  - (* the first exponent is the larger number's: impossible *)
    exfalso.
    assert (HG : 2 ^ Zpos E2 = 2 ^ Zpos E1 * 2 ^ (Zpos E2 - Zpos E1)).
    { rewrite <- Z.pow_add_r by lia. f_equal. lia. }
    assert (HG2 : 2 <= 2 ^ (Zpos E2 - Zpos E1)).
    { change 2 with (2 ^ 1) at 1. apply Z.pow_le_mono_r; lia. }
    set (T := 2 ^ Zpos E1) in *. set (G := 2 ^ (Zpos E2 - Zpos E1)) in *.
    rewrite HG in HA2.
    assert (H1 : (2 ^ 54 - 1) * Y1 <= 4 * (X1 * T)).
    { destruct (Z.eq_dec (Zpos m1) (2 ^ 52)) as [He | Hne].
      - specialize (HB1 He). rewrite He in HB1. lia.
      - assert ((2 ^ 52 + 1) * Y1 <= Zpos m1 * Y1)
          by (apply Z.mul_le_mono_nonneg_r; lia).
        lia. }
    assert (H2 : 4 * (X2 * T) < (2 ^ 54 - 1) * Y2).
    { assert (F2 : Zpos m2 * Y2 <= (2 ^ 53 - 1) * Y2)
        by (apply Z.mul_le_mono_nonneg_r; lia).
      assert (F3 : X2 * T * 2 <= X2 * T * G)
        by (apply Z.mul_le_mono_nonneg_l; [apply Z.mul_nonneg_nonneg |]; lia).
      lia. }
    assert (H1' : (2 ^ 54 - 1) * Y1 * Y2 <= 4 * (X1 * T) * Y2)
      by (apply Z.mul_le_mono_nonneg_r; lia).
    assert (H2' : 4 * (X2 * T) * Y1 < (2 ^ 54 - 1) * Y2 * Y1)
      by (apply Z.mul_lt_mono_pos_r; lia).
    assert (H3 : (X2 * Y1) * T < (X1 * Y2) * T) by lia.
    apply Hcancel in H3; lia.
  - reflexivity.
Qed.

(** The class of the quotient of two [int32]s. *)
Lemma double_div_int32_classify (X Y : Z) :
  int32_range X -> int32_range Y ->
  double_classify (double_div (double_of_int32 X) (double_of_int32 Y))
  = if Y =? 0
    then (if X =? 0 then NaN else if X <? 0 then NInf else PInf)
    else if X =? 0
    then (if Y <? 0 then NZero else PZero)
    else if xorb (X <? 0) (Y <? 0) then NNormal else PNormal.
Proof.
  intros HX HY. unfold double_classify.
  destruct (Z.eqb_spec Y 0) as [-> | HYnz];
    destruct (Z.eqb_spec X 0) as [-> | HXnz].
  - reflexivity.
  - destruct (double_of_int32_nonzero X HX HXnz) as (k & -> & _).
    rewrite double_of_int32_zero. unfold double_div. cbn [SFdiv SFclassify].
    rewrite xorb_false_r. destruct (X <? 0); reflexivity.
  - destruct (double_of_int32_nonzero Y HY HYnz) as (k & -> & _).
    rewrite double_of_int32_zero. unfold double_div. cbn [SFdiv SFclassify xorb].
    destruct (Y <? 0); reflexivity.
  - destruct (double_div_int32_closest X Y HX HY HXnz HYnz)
      as (m & E & -> & Hm & _).
    cbn [SFclassify]. unfold double_prec.
    rewrite (digits2_pos_eq m 53) by lia. rewrite Z.eqb_refl.
    destruct (xorb (X <? 0) (Y <? 0)); reflexivity.
Qed.

End ClosestQuotient.

(** ** The inherited aspect ratio *)

Section AspectRatio.

Context {FTimespan FMediaTimeStamp FTimecode : Type}.
Context {Fields Fields' : Type}.
Variable class : IMediaTextureSample FTimespan FMediaTimeStamp FTimecode Fields.
Variable class' :
  IMediaTextureSample FTimespan FMediaTimeStamp FTimecode Fields'.
Variable this : Fields.
Variable that : Fields'.

Lemma GetAspectRatio_inherited :
  override_GetAspectRatio class = None ->
  GetAspectRatio class this
  = double_div (double_of_int32 (FIntPoint.X (GetOutputDim class this)))
               (double_of_int32 (FIntPoint.Y (GetOutputDim class this))).
Proof.
  intros Hinherit. unfold GetAspectRatio, dispatch. rewrite Hinherit.
  reflexivity.
Qed.

(** X1: the class of the inherited aspect ratio follows from the signs
    of the output dimensions alone.  A zero height gives not-a-number
    (zero width) or an infinity of the width's sign; otherwise a zero
    width gives a zero of the height's sign, and any other size a
    normal number, negative when the two signs differ.  The result is
    never subnormal. *)
Theorem GetAspectRatio_class :
  override_GetAspectRatio class = None ->
  FIntPoint.in_range (GetOutputDim class this) ->
  double_classify (GetAspectRatio class this)
  = if FIntPoint.Y (GetOutputDim class this) =? 0
    then (if FIntPoint.X (GetOutputDim class this) =? 0 then NaN
          else if FIntPoint.X (GetOutputDim class this) <? 0 then NInf
          else PInf)
    else if FIntPoint.X (GetOutputDim class this) =? 0
    then (if FIntPoint.Y (GetOutputDim class this) <? 0 then NZero
          else PZero)
    else if xorb (FIntPoint.X (GetOutputDim class this) <? 0)
                 (FIntPoint.Y (GetOutputDim class this) <? 0)
    then NNormal
    else PNormal.
Proof.
  intros Hinherit [HX HY]. rewrite (GetAspectRatio_inherited Hinherit).
  apply double_div_int32_classify; assumption.
Qed.

(** X2: two samples whose positive output dimensions are in the same
    proportion have the same inherited aspect ratio, bit for bit:
    1920x1080 and 1280x720 give one and the same [double]. *)
Theorem GetAspectRatio_same_proportion :
  override_GetAspectRatio class = None ->
  override_GetAspectRatio class' = None ->
  positive_dim (GetOutputDim class this) ->
  positive_dim (GetOutputDim class' that) ->
  FIntPoint.X (GetOutputDim class this) * FIntPoint.Y (GetOutputDim class' that)
  = FIntPoint.X (GetOutputDim class' that) * FIntPoint.Y (GetOutputDim class this) ->
  GetAspectRatio class this = GetAspectRatio class' that.
Proof.
  intros Hinherit Hinherit' [HX HY] [HX' HY'] Hprop.
  unfold GetAspectRatio, dispatch. rewrite Hinherit, Hinherit'.
  apply double_div_proportional; assumption.
Qed.

(** X3: for positive output dimensions the inherited aspect ratio
    compares to [1.0] exactly as the width compares to the height:
    below one for a portrait frame, equal to one for a square frame,
    above one for a landscape frame. *)
Theorem GetAspectRatio_against_one :
  override_GetAspectRatio class = None ->
  positive_dim (GetOutputDim class this) ->
  double_compare (GetAspectRatio class this) double_one
  = Some (FIntPoint.X (GetOutputDim class this)
          ?= FIntPoint.Y (GetOutputDim class this)).
Proof.
  intros Hinherit [HX HY]. rewrite (GetAspectRatio_inherited Hinherit).
  apply double_div_compare_one; assumption.
Qed.

(** X4: when the positive output width is a whole multiple [k] of the
    output height, the inherited aspect ratio is exactly [(double)k]:
    no rounding error is left. *)
Theorem GetAspectRatio_whole_ratio (k : Z) :
  override_GetAspectRatio class = None ->
  positive_dim (GetOutputDim class this) ->
  FIntPoint.X (GetOutputDim class this)
  = k * FIntPoint.Y (GetOutputDim class this) ->
  GetAspectRatio class this = double_of_int32 k.
Proof.
  intros Hinherit [HX HY] Hk. rewrite (GetAspectRatio_inherited Hinherit).
  rewrite Hk in HX |- *.
  assert (Hkpos : 0 < k).
  { destruct (Z.lt_trichotomy k 0) as [Hneg | [Hzero | Hpos]];
      [| subst k; lia | exact Hpos].
    assert (k * FIntPoint.Y (GetOutputDim class this) <= 0)
      by (apply Z.mul_nonpos_nonneg; lia).
    lia. }
  apply double_div_whole; lia.
Qed.

(** X5: the inherited aspect ratio is monotone in the exact ratio: if
    one sample's width to height ratio is at most another's (positive
    output dimensions), its aspect ratio is at most the other's. *)
Theorem GetAspectRatio_monotone :
  override_GetAspectRatio class = None ->
  override_GetAspectRatio class' = None ->
  positive_dim (GetOutputDim class this) ->
  positive_dim (GetOutputDim class' that) ->
  FIntPoint.X (GetOutputDim class this) * FIntPoint.Y (GetOutputDim class' that)
  <= FIntPoint.X (GetOutputDim class' that) * FIntPoint.Y (GetOutputDim class this) ->
  double_leb (GetAspectRatio class this) (GetAspectRatio class' that) = true.
Proof.
  intros Hinherit Hinherit' [HX HY] [HX' HY'] Hle.
  unfold GetAspectRatio, dispatch. rewrite Hinherit, Hinherit'.
  apply double_div_monotone; assumption.
Qed.

End AspectRatio.

Section AspectRatioFrames.

Import FFrameBufferSample.

Lemma positive_dim_frame_of_size (width height : Z) :
  0 < width < 2 ^ 31 -> 0 < height < 2 ^ 31 ->
  positive_dim (GetOutputDim class (frame_of_size width height)).
Proof. intros Hw Hh. split; assumption. Qed.

Lemma GetAspectRatio_class_witness :
  override_GetAspectRatio class = None
  /\ FIntPoint.in_range (GetOutputDim class flat_frame)
  /\ double_classify (GetAspectRatio class flat_frame) = PInf.
Proof.
  assert (Hrange : FIntPoint.in_range (GetOutputDim class flat_frame))
    by (unfold FIntPoint.in_range, int32_range; simpl; lia).
  split; [reflexivity |]. split; [exact Hrange |].
  exact (GetAspectRatio_class class flat_frame eq_refl Hrange).
Defined.

Lemma GetAspectRatio_same_proportion_witness :
  override_GetAspectRatio class = None
  /\ positive_dim (GetOutputDim class (frame_of_size 1920 1080))
  /\ positive_dim (GetOutputDim class (frame_of_size 1280 720))
  /\ 1920 * 720 = 1280 * 1080
  /\ GetAspectRatio class (frame_of_size 1920 1080)
     = GetAspectRatio class (frame_of_size 1280 720).
Proof.
  assert (H1 : positive_dim (GetOutputDim class (frame_of_size 1920 1080)))
    by (apply positive_dim_frame_of_size; lia).
  assert (H2 : positive_dim (GetOutputDim class (frame_of_size 1280 720)))
    by (apply positive_dim_frame_of_size; lia).
  split; [reflexivity |]. split; [exact H1 |]. split; [exact H2 |].
  split; [reflexivity |].
  exact (GetAspectRatio_same_proportion class class
           (frame_of_size 1920 1080) (frame_of_size 1280 720)
           eq_refl eq_refl H1 H2 eq_refl).
Defined.

Lemma GetAspectRatio_against_one_witness :
  override_GetAspectRatio class = None
  /\ positive_dim (GetOutputDim class (frame_of_size 1080 1920))
  /\ double_compare (GetAspectRatio class (frame_of_size 1080 1920)) double_one
     = Some Lt.
Proof.
  assert (H1 : positive_dim (GetOutputDim class (frame_of_size 1080 1920)))
    by (apply positive_dim_frame_of_size; lia).
  split; [reflexivity |]. split; [exact H1 |].
  exact (GetAspectRatio_against_one class (frame_of_size 1080 1920) eq_refl H1).
Defined.

Lemma GetAspectRatio_whole_ratio_witness :
  override_GetAspectRatio class = None
  /\ positive_dim (GetOutputDim class (frame_of_size 2048 1024))
  /\ 2048 = 2 * 1024
  /\ GetAspectRatio class (frame_of_size 2048 1024) = double_of_int32 2.
Proof.
  assert (H1 : positive_dim (GetOutputDim class (frame_of_size 2048 1024)))
    by (apply positive_dim_frame_of_size; lia).
  split; [reflexivity |]. split; [exact H1 |]. split; [reflexivity |].
  exact (GetAspectRatio_whole_ratio class (frame_of_size 2048 1024) 2
           eq_refl H1 eq_refl).
Defined.

Lemma GetAspectRatio_monotone_witness :
  override_GetAspectRatio class = None
  /\ positive_dim (GetOutputDim class (frame_of_size 1280 1024))
  /\ positive_dim (GetOutputDim class (frame_of_size 1920 1080))
  /\ 1280 * 1080 <= 1920 * 1024
  /\ double_leb (GetAspectRatio class (frame_of_size 1280 1024))
                (GetAspectRatio class (frame_of_size 1920 1080)) = true.
Proof.
  assert (H1 : positive_dim (GetOutputDim class (frame_of_size 1280 1024)))
    by (apply positive_dim_frame_of_size; lia).
  assert (H2 : positive_dim (GetOutputDim class (frame_of_size 1920 1080)))
    by (apply positive_dim_frame_of_size; lia).
  assert (H3 : 1280 * 1080 <= 1920 * 1024) by lia.
  split; [reflexivity |]. split; [exact H1 |]. split; [exact H2 |].
  split; [exact H3 |].
  exact (GetAspectRatio_monotone class class
           (frame_of_size 1280 1024) (frame_of_size 1920 1080)
           eq_refl eq_refl H1 H2 H3).
Defined.

End AspectRatioFrames.
